(** * Verification of the API settings page (launcher/ui/pages/global/APIPage.cpp)

    The page copies nine settings between the application's settings object
    and the widgets of the form, normalises three base URLs with [verifyUrl]
    when the form is applied, and drives the button that downloads the meta
    server's properties.

    The page is written against Qt.  The Qt classes it uses are modelled here
    as far as the page observes them: the settings object as a finite map
    from keys to [QVariant]s, line edits as their text, the combo box as its
    item data and current index.  [QUrl] is taken as an interface: the
    properties of [verifyUrl] are proved for every implementation of it that
    keeps the laws of [QUrl_laws]; a small implementation, the component
    split of a URI reference, serves to evaluate the page on texts. *)

From Stdlib Require Import Ascii String List ZArith Lia Bool.
From Stdlib Require Import DecimalString.
From stdpp Require Import gmap strings.

Import ListNotations.
Local Open Scope char_scope.

(** ** Characters and character lists *)

Definition is_lower (c : ascii) : bool :=
  (nat_of_ascii "a" <=? nat_of_ascii c)%nat && (nat_of_ascii c <=? nat_of_ascii "z")%nat.

Definition is_upper (c : ascii) : bool :=
  (nat_of_ascii "A" <=? nat_of_ascii c)%nat && (nat_of_ascii c <=? nat_of_ascii "Z")%nat.

Definition is_digit (c : ascii) : bool :=
  (nat_of_ascii "0" <=? nat_of_ascii c)%nat && (nat_of_ascii c <=? nat_of_ascii "9")%nat.

(** [c + 0x20] on an upper-case letter, as QUrl does on a scheme. *)
Definition to_lower (c : ascii) : ascii :=
  if is_upper c then ascii_of_nat (nat_of_ascii c + 32) else c.

(** [break c l] cuts [l] at the first occurrence of [c]: the part before it,
    and the part after it when there is one. *)
Fixpoint break (c : ascii) (l : list ascii) : list ascii * option (list ascii) :=
  match l with
  | [] => ([], None)
  | x :: t =>
      if Ascii.eqb x c then ([], Some t)
      else let '(a, b) := break c t in (x :: a, b)
  end.

(** [until c l] is the part of [l] before the first [c]; [from c l] is the
    rest, starting at that [c]. *)
Fixpoint until (c : ascii) (l : list ascii) : list ascii :=
  match l with
  | [] => []
  | x :: t => if Ascii.eqb x c then [] else x :: until c t
  end.

Fixpoint from (c : ascii) (l : list ascii) : list ascii :=
  match l with
  | [] => []
  | x :: t => if Ascii.eqb x c then l else from c t
  end.

(** [QString::endsWith(QChar)]. *)
Fixpoint ends_with (c : ascii) (l : list ascii) : bool :=
  match l with
  | [] => false
  | [x] => Ascii.eqb x c
  | _ :: t => ends_with c t
  end.

Definition endsWith (c : ascii) (s : string) : bool :=
  ends_with c (list_ascii_of_string s).

(** ** QUrl

    [QUrl] is Qt's; [verifyUrl] uses its constructor from a string,
    [isEmpty], [path], [setPath], [scheme], [setScheme] and [toString].
    The interface lists them, with [authority], [query], [fragment],
    [hasQuery] and [hasFragment], which the page does not call and which
    serve to say what [verifyUrl] leaves alone. *)
Module QUrlApi.

Record ops := mk {
  t : Type;
  fromString : string -> t;
  isEmpty : t -> bool;
  scheme : t -> string;
  setScheme : string -> t -> t;
  authority : t -> string;
  path : t -> string;
  setPath : string -> t -> t;
  hasQuery : t -> bool;
  query : t -> string;
  hasFragment : t -> bool;
  fragment : t -> string;
  toString : t -> string
}.

Arguments isEmpty {_} _.
Arguments scheme {_} _.
Arguments setScheme {_} _ _.
Arguments authority {_} _.
Arguments path {_} _.
Arguments setPath {_} _ _.
Arguments hasQuery {_} _.
Arguments query {_} _.
Arguments hasFragment {_} _.
Arguments fragment {_} _.
Arguments toString {_} _.

End QUrlApi.

(** ** verifyUrl (APIPage.cpp, lines 178-192), over the interface *)

Definition verifyUrl_over (I : QUrlApi.ops) (url : string) : string :=
  let qUrl := QUrlApi.fromString I url in
  (* Add required trailing slash *)
  let qUrl :=
    if negb (QUrlApi.isEmpty qUrl) && negb (endsWith "/" (QUrlApi.path qUrl))
    then QUrlApi.setPath (QUrlApi.path qUrl ++ "/")%string qUrl
    else qUrl in
  (* HTTP may not be allowed either? *)
  let qUrl :=
    if negb (QUrlApi.isEmpty qUrl) && String.eqb (QUrlApi.scheme qUrl) "http"
    then QUrlApi.setScheme "https" qUrl
    else qUrl in
  QUrlApi.toString qUrl.

(** ** An implementation of the interface

    The five components of a URI reference, cut the way QUrl's tolerant
    parser cuts them: the first [#] starts the fragment, the first [?] before
    it the query, the text before the first [:] is the scheme when it is one
    (a letter followed by letters, digits, [+], [-] or [.]; stored in lower
    case), [//] opens the authority, which runs to the next [/], and the rest
    is the path.  A component that is present but empty (as in
    [http://host?]) differs from an absent one; a scheme is present exactly
    when it is not empty.  [toString] writes nothing for the URLs
    [QUrl::isValid] refuses for their shape.

    This is not all of QUrl: the text inside a component is kept as it is,
    where QUrl decodes and encodes percent sequences ([path] and [setPath]
    work on the decoded path), lower-cases the host, rewrites the port, and
    refuses a host or a port it cannot read.  The implementation is meant
    for plain texts (a host in lower case, no percent sign, a port in plain
    decimal or none), as those of the examples are; what is proved of
    [verifyUrl] is proved from the laws, not from this implementation. *)
Module QUrl.

Record t := mk {
  scheme_ : list ascii;
  authority_ : option (list ascii);
  path_ : list ascii;
  query_ : option (list ascii);
  fragment_ : option (list ascii)
}.

(** A scheme: a letter, then letters, digits, [+], [-] or [.]. *)
Definition scheme_first (c : ascii) : bool := is_lower c || is_upper c.

Definition scheme_char (c : ascii) : bool :=
  is_lower c || is_upper c || is_digit c ||
  Ascii.eqb c "+" || Ascii.eqb c "-" || Ascii.eqb c ".".

Definition valid_scheme (s : list ascii) : bool :=
  match s with
  | [] => false
  | c :: r => scheme_first c && forallb scheme_char r
  end.

(** The text after the scheme and before the query: authority and path. *)
Definition split_hier (h : list ascii) : option (list ascii) * list ascii :=
  match h with
  | x :: y :: r =>
      if Ascii.eqb x "/" && Ascii.eqb y "/"
      then (Some (until "/" r), from "/" r)
      else (None, h)
  | _ => (None, h)
  end.

Definition parse (url : list ascii) : t :=
  let '(pre, frag) := break "#" url in
  let '(hier, query) := break "?" pre in
  let '(sch, rest) :=
    match break ":" hier with
    | (s, Some r) => if valid_scheme s then (map to_lower s, r) else ([], hier)
    | (_, None) => ([], hier)
    end in
  let '(auth, p) := split_hier rest in
  mk sch auth p query frag.

Definition fromString (url : string) : t := parse (list_ascii_of_string url).

Definition isEmpty (u : t) : bool :=
  match scheme_ u, authority_ u, path_ u, query_ u, fragment_ u with
  | [], None, [], None, None => true
  | _, _, _, _, _ => false
  end.

Definition scheme (u : t) : string := string_of_list_ascii (scheme_ u).
Definition path (u : t) : string := string_of_list_ascii (path_ u).

Definition setPath (p : string) (u : t) : t :=
  mk (scheme_ u) (authority_ u) (list_ascii_of_string p) (query_ u) (fragment_ u).

(** A scheme that is not one leaves the URL without a scheme. *)
Definition setScheme (s : string) (u : t) : t :=
  let s' := list_ascii_of_string s in
  mk (if valid_scheme s' then map to_lower s' else [])
     (authority_ u) (path_ u) (query_ u) (fragment_ u).

Definition isLocalFile (u : t) : bool :=
  String.eqb (string_of_list_ascii (scheme_ u)) "file".

Definition pathIsAbsolute (u : t) : bool :=
  match path_ u with c :: _ => Ascii.eqb c "/" | [] => false end.

(** The components put back together, each with its delimiter.  A local
    file with an absolute path and no authority is written with the empty
    authority ([file:///tmp], not [file:/tmp]). *)
Definition schemePart (u : t) : list ascii :=
  match scheme_ u with [] => [] | _ :: _ => scheme_ u ++ [":"] end.

Definition authorityPart (u : t) : list ascii :=
  match authority_ u with
  | Some a => "/" :: "/" :: a
  | None => if isLocalFile u && pathIsAbsolute u then ["/"; "/"] else []
  end.

Definition queryPart (u : t) : list ascii :=
  match query_ u with Some q => "?" :: q | None => [] end.

Definition fragmentPart (u : t) : list ascii :=
  match fragment_ u with Some f => "#" :: f | None => [] end.

Definition unparse (u : t) : list ascii :=
  schemePart u ++ authorityPart u ++ path_ u ++ queryPart u ++ fragmentPart u.

(** [QUrl::authority], [query] and [fragment]: the text of the component,
    empty when there is none. *)
Definition authority (u : t) : string :=
  string_of_list_ascii (match authority_ u with Some a => a | None => [] end).

Definition hasQuery (u : t) : bool :=
  match query_ u with Some _ => true | None => false end.

Definition query (u : t) : string :=
  string_of_list_ascii (match query_ u with Some q => q | None => [] end).

Definition hasFragment (u : t) : bool :=
  match fragment_ u with Some _ => true | None => false end.

Definition fragment (u : t) : string :=
  string_of_list_ascii (match fragment_ u with Some f => f | None => [] end).

(** A colon in front of the first slash. *)
Fixpoint colon_before_slash (p : list ascii) : bool :=
  match p with
  | [] => false
  | c :: r =>
      if Ascii.eqb c ":" then true
      else if Ascii.eqb c "/" then false
      else colon_before_slash r
  end.

(** [QUrl::isValid], as far as the shape of the URL decides it: the URL is
    not empty, and its text would be read back as the same URL.  That fails
    for a path that starts with [//] behind no authority, for a relative path
    behind an authority, and for a relative path with a colon in its first
    segment behind neither scheme nor authority. *)
Definition isValid (u : t) : bool :=
  negb (isEmpty u) &&
  match path_ u with
  | [] => true
  | c :: r =>
      if Ascii.eqb c "/" then
        match authority_ u, r with
        | Some _, _ => true
        | None, [] => true
        | None, d :: _ => negb (Ascii.eqb d "/")
        end
      else
        match authority_ u, scheme_ u with
        | Some _, _ => false
        | None, _ :: _ => true
        | None, [] => negb (colon_before_slash (path_ u))
        end
  end.

(** [QUrl::toString]: the empty text for a URL that is not valid. *)
Definition toString (u : t) : string :=
  if isValid u then string_of_list_ascii (unparse u) else ""%string.

End QUrl.

Definition QUrl_model : QUrlApi.ops :=
  QUrlApi.mk QUrl.t QUrl.fromString QUrl.isEmpty QUrl.scheme QUrl.setScheme
    QUrl.authority QUrl.path QUrl.setPath QUrl.hasQuery QUrl.query
    QUrl.hasFragment QUrl.fragment QUrl.toString.

(** ** verifyUrl (APIPage.cpp, lines 178-192), evaluated with [QUrl_model] *)

Definition verifyUrl (url : string) : string :=
  let qUrl := QUrl.fromString url in
  (* Add required trailing slash *)
  let qUrl :=
    if negb (QUrl.isEmpty qUrl) && negb (endsWith "/" (QUrl.path qUrl))
    then QUrl.setPath (QUrl.path qUrl ++ "/")%string qUrl
    else qUrl in
  (* HTTP may not be allowed either? *)
  let qUrl :=
    if negb (QUrl.isEmpty qUrl) && String.eqb (QUrl.scheme qUrl) "http"
    then QUrl.setScheme "https" qUrl
    else qUrl in
  QUrl.toString qUrl.

(** ** QVariant and the settings object *)

Inductive QVariant :=
  | QInvalid
  | QInt (n : Z)
  | QStr (s : string).

Definition is_space (c : ascii) : bool :=
  Ascii.eqb c " " ||
  (9 <=? nat_of_ascii c)%nat && (nat_of_ascii c <=? 13)%nat.

Fixpoint trim_left (l : list ascii) : list ascii :=
  match l with
  | [] => []
  | c :: r => if is_space c then trim_left r else l
  end.

Definition trimmed (l : list ascii) : list ascii :=
  rev (trim_left (rev (trim_left l))).

Definition unsigned_part (l : list ascii) : list ascii :=
  match l with
  | c :: d :: r =>
      if Ascii.eqb c "+" && negb (Ascii.eqb d "-") then d :: r else l
  | _ => l
  end.

(** [QString::toInt]: the text spells a decimal number, with an optional sign
    and white space around it, that fits an [int]; otherwise 0. *)
Definition QString_toInt (s : string) : Z :=
  let t := unsigned_part (trimmed (list_ascii_of_string s)) in
  match NilZero.int_of_string (string_of_list_ascii t) with
  | Some d =>
      let n := Z.of_int d in
      if (- 2 ^ 31 <=? n)%Z && (n <? 2 ^ 31)%Z then n else 0%Z
  | None => 0%Z
  end.

Definition QVariant_toInt (v : QVariant) : Z :=
  match v with
  | QInvalid => 0%Z
  | QInt n => n
  | QStr s => QString_toInt s
  end.

Definition QVariant_toString (v : QVariant) : string :=
  match v with
  | QInvalid => ""%string
  | QInt n => NilZero.string_of_int (Z.to_int n)
  | QStr s => s
  end.

(** Modelled from the spec: the settings object (settings/SettingsObject.h),
    a key-value mapping from setting names to string or int values with total
    [get] and [set]; a key that is missing reads as the invalid variant, which
    converts to the empty string and to 0. *)
Module Settings.

Abbreviation t := (gmap string QVariant).

Definition get (id : string) (s : t) : QVariant :=
  match s !! id with
  | Some v => v
  | None => QInvalid
  end.

Definition set (id : string) (v : QVariant) (s : t) : t := <[id := v]> s.

End Settings.

(** ** The paste types (net/PasteUpload.h)

    The enumeration is declared outside this file; its constants are named
    here and their integer values are those of the declaration order
    [NullPointer, Hastebin, PasteGG, Mclogs]. *)
Module PasteUpload.

Inductive PasteType := NullPointer | Hastebin | PasteGG | Mclogs.

Definition value (p : PasteType) : Z :=
  match p with
  | NullPointer => 0
  | Hastebin => 1
  | PasteGG => 2
  | Mclogs => 3
  end%Z.

End PasteUpload.

(** ** The widgets of the form *)

(** A combo box: the user data of its items, and the current index ([-1]
    when there is none). *)
Module QComboBox.

Record t := mk {
  itemData_ : list Z;
  currentIndex : Z
}.

Fixpoint find (d : Z) (l : list Z) (i : Z) : Z :=
  match l with
  | [] => (-1)%Z
  | x :: r => if (x =? d)%Z then i else find d r (i + 1)%Z
  end.

(** Index of the first item with that data, [-1] when there is none. *)
Definition findData (d : Z) (c : t) : Z := find d (itemData_ c) 0%Z.

Definition itemData (i : Z) (c : t) : QVariant :=
  if (i <? 0)%Z then QInvalid
  else match nth_error (itemData_ c) (Z.to_nat i) with
       | Some d => QInt d
       | None => QInvalid
       end.

Definition currentData (c : t) : QVariant := itemData (currentIndex c) c.

Definition count (c : t) : Z := Z.of_nat (length (itemData_ c)).

(** An index out of range selects nothing. *)
Definition setCurrentIndex (i : Z) (c : t) : t :=
  mk (itemData_ c) (if (0 <=? i)%Z && (i <? count c)%Z then i else (-1)%Z).

(** The first item added to an empty box becomes the current one. *)
Definition addItem (d : Z) (c : t) : t :=
  mk (itemData_ c ++ [d])
     (match itemData_ c with [] => 0%Z | _ => currentIndex c end).

Definition empty : t := mk [] (-1)%Z.

End QComboBox.

(** The three captions of the button. *)
Inductive Caption :=
  | CaptionOfForm
  | CaptionDownloading
  | CaptionDownloadAndApply.

(** The widgets ([Ui::APIPage]) and the page's own member. *)
Record APIPage := mkPage {
  pasteTypeComboBox : QComboBox.t;
  baseURLEntry : string;
  msaClientID : string;
  metaURL : string;
  resourceURL : string;
  librariesURL : string;
  flameKey : string;
  modrinthToken : string;
  userAgentLineEdit : string;
  baseURLNote_visible : bool;
  applyPropertiesBtn_enabled : bool;
  applyPropertiesBtn_text : Caption;
  baseURLPasteType : Z
}.

(** The form fields proper: what the user edits. *)
Record FormFields := mkFields {
  f_pasteType : QVariant;
  f_baseURL : string;
  f_msaClientID : string;
  f_metaURL : string;
  f_resourceURL : string;
  f_librariesURL : string;
  f_flameKey : string;
  f_modrinthToken : string;
  f_userAgent : string
}.

Definition fields (p : APIPage) : FormFields :=
  mkFields (QComboBox.currentData (pasteTypeComboBox p)) (baseURLEntry p)
           (msaClientID p) (metaURL p) (resourceURL p) (librariesURL p)
           (flameKey p) (modrinthToken p) (userAgentLineEdit p).

(** ** The page (APIPage.cpp) *)

Definition comboBoxEntries : list Z :=
  [ PasteUpload.value PasteUpload.Mclogs; PasteUpload.value PasteUpload.NullPointer;
    PasteUpload.value PasteUpload.PasteGG; PasteUpload.value PasteUpload.Hastebin ].

Definition set_note (b : bool) (p : APIPage) : APIPage :=
  mkPage (pasteTypeComboBox p) (baseURLEntry p) (msaClientID p) (metaURL p)
         (resourceURL p) (librariesURL p) (flameKey p) (modrinthToken p)
         (userAgentLineEdit p) b (applyPropertiesBtn_enabled p)
         (applyPropertiesBtn_text p) (baseURLPasteType p).

(** lines 124-128 *)
Definition resetBaseURLNote (p : APIPage) : APIPage :=
  mkPage (pasteTypeComboBox p) (baseURLEntry p) (msaClientID p) (metaURL p)
         (resourceURL p) (librariesURL p) (flameKey p) (modrinthToken p)
         (userAgentLineEdit p) false (applyPropertiesBtn_enabled p)
         (applyPropertiesBtn_text p)
         (QComboBox.currentIndex (pasteTypeComboBox p)).

(** lines 130-137 *)
Definition updateBaseURLNote (index : Z) (p : APIPage) : APIPage :=
  if (baseURLPasteType p =? index)%Z then set_note false p
  else if negb (String.eqb (baseURLEntry p) "") then set_note true p
  else p.

(** [ui->pasteTypeComboBox->setCurrentIndex]: the box emits
    [currentIndexChanged] when the index changes, which runs
    [updateBaseURLNote] (connected on line 95; the placeholder text that
    [updateBaseURLPlaceholder] sets is not part of the state). *)
Definition setPasteTypeIndex (i : Z) (p : APIPage) : APIPage :=
  let box := QComboBox.setCurrentIndex i (pasteTypeComboBox p) in
  let p' :=
    mkPage box (baseURLEntry p) (msaClientID p) (metaURL p)
           (resourceURL p) (librariesURL p) (flameKey p) (modrinthToken p)
           (userAgentLineEdit p) (baseURLNote_visible p)
           (applyPropertiesBtn_enabled p) (applyPropertiesBtn_text p)
           (baseURLPasteType p) in
  if (QComboBox.currentIndex box =? QComboBox.currentIndex (pasteTypeComboBox p))%Z
  then p' else updateBaseURLNote (QComboBox.currentIndex box) p'.

Definition set_baseURLEntry (s : string) (p : APIPage) : APIPage :=
  mkPage (pasteTypeComboBox p) s (msaClientID p) (metaURL p)
         (resourceURL p) (librariesURL p) (flameKey p) (modrinthToken p)
         (userAgentLineEdit p) (baseURLNote_visible p)
         (applyPropertiesBtn_enabled p) (applyPropertiesBtn_text p)
         (baseURLPasteType p).

(** lines 146-176 *)
Definition loadSettings (s : Settings.t) (p : APIPage) : APIPage :=
  let pasteType := QVariant_toInt (Settings.get "PastebinType" s) in
  let pastebinURL := QVariant_toString (Settings.get "PastebinCustomAPIBase" s) in
  let p := set_baseURLEntry pastebinURL p in
  let pasteTypeIndex := QComboBox.findData pasteType (pasteTypeComboBox p) in
  let '(pasteTypeIndex, p) :=
    if (pasteTypeIndex =? -1)%Z
    then (QComboBox.findData (PasteUpload.value PasteUpload.Mclogs) (pasteTypeComboBox p),
          set_baseURLEntry "" p)
    else (pasteTypeIndex, p) in
  let p := setPasteTypeIndex pasteTypeIndex p in
  mkPage (pasteTypeComboBox p) (baseURLEntry p)
         (QVariant_toString (Settings.get "MSAClientIDOverride" s))
         (QVariant_toString (Settings.get "MetaURLOverride" s))
         (QVariant_toString (Settings.get "MinecraftResourceURLOverride" s))
         (QVariant_toString (Settings.get "MinecraftLibrariesURLOverride" s))
         (QVariant_toString (Settings.get "FlameKeyOverride" s))
         (QVariant_toString (Settings.get "ModrinthToken" s))
         (QVariant_toString (Settings.get "UserAgentOverride" s))
         (baseURLNote_visible p) (applyPropertiesBtn_enabled p)
         (applyPropertiesBtn_text p) (baseURLPasteType p).

(** lines 194-211 *)
Definition applySettings (p : APIPage) (s : Settings.t) : Settings.t :=
  let s := Settings.set "PastebinType"
             (QInt (QVariant_toInt (QComboBox.currentData (pasteTypeComboBox p)))) s in
  let s := Settings.set "PastebinCustomAPIBase" (QStr (baseURLEntry p)) s in
  let s := Settings.set "MSAClientIDOverride" (QStr (msaClientID p)) s in
  let s := Settings.set "MetaURLOverride" (QStr (verifyUrl (metaURL p))) s in
  let s := Settings.set "MinecraftResourceURLOverride" (QStr (verifyUrl (resourceURL p))) s in
  let s := Settings.set "MinecraftLibrariesURLOverride" (QStr (verifyUrl (librariesURL p))) s in
  let s := Settings.set "FlameKeyOverride" (QStr (flameKey p)) s in
  let s := Settings.set "ModrinthToken" (QStr (modrinthToken p)) s in
  Settings.set "UserAgentOverride" (QStr (userAgentLineEdit p)) s.

(** lines 194-211, over the interface of QUrl *)
Definition applySettings_over (I : QUrlApi.ops) (p : APIPage) (s : Settings.t)
    : Settings.t :=
  let s := Settings.set "PastebinType"
             (QInt (QVariant_toInt (QComboBox.currentData (pasteTypeComboBox p)))) s in
  let s := Settings.set "PastebinCustomAPIBase" (QStr (baseURLEntry p)) s in
  let s := Settings.set "MSAClientIDOverride" (QStr (msaClientID p)) s in
  let s := Settings.set "MetaURLOverride" (QStr (verifyUrl_over I (metaURL p))) s in
  let s := Settings.set "MinecraftResourceURLOverride"
             (QStr (verifyUrl_over I (resourceURL p))) s in
  let s := Settings.set "MinecraftLibrariesURLOverride"
             (QStr (verifyUrl_over I (librariesURL p))) s in
  let s := Settings.set "FlameKeyOverride" (QStr (flameKey p)) s in
  let s := Settings.set "ModrinthToken" (QStr (modrinthToken p)) s in
  Settings.set "UserAgentOverride" (QStr (userAgentLineEdit p)) s.

(** lines 213-217 *)
Definition apply (p : APIPage) (s : Settings.t) : bool * Settings.t :=
  (true, applySettings p s).

Definition set_button (enabled : bool) (text : Caption) (p : APIPage) : APIPage :=
  mkPage (pasteTypeComboBox p) (baseURLEntry p) (msaClientID p) (metaURL p)
         (resourceURL p) (librariesURL p) (flameKey p) (modrinthToken p)
         (userAgentLineEdit p) (baseURLNote_visible p) enabled text
         (baseURLPasteType p).

(** ** The download of the meta server's properties *)

(** Modelled from the spec: the remote properties service (meta/Property.h).
    [downloadAndApplyProperties] starts an asynchronous request; every request
    started resolves exactly once, either to success (a mapping from property
    names to the values applied, after the service has written the settings)
    or to failure (a reason).  The model counts the requests started and those
    still unresolved. *)
Module Property.

Record t := mk {
  started : nat;
  unresolved : nat
}.

Definition idle : t := mk 0 0.

Definition downloadAndApplyProperties (m : t) : t :=
  mk (S (started m)) (S (unresolved m)).

Definition resolve (m : t) : t := mk (started m) (pred (unresolved m)).

End Property.

(** The message boxes shown, by what they report. *)
Inductive Dialog :=
  | Information (succeed : list (string * string))
  | Warning (reasons : string).

Record World := mkWorld {
  page : APIPage;
  settings : Settings.t;
  property : Property.t;
  dialogs : list Dialog
}.

(** lines 58-96: the combo box is filled from [comboBoxEntries], the settings
    are loaded and the note is reset.  The form (APIPage.ui) leaves the line
    edits empty and the button enabled; [baseURLPasteType] has no value before
    [resetBaseURLNote] gives it one. *)
Definition APIPage_new (s : Settings.t) : APIPage :=
  let box := fold_left (fun c d => QComboBox.addItem d c) comboBoxEntries QComboBox.empty in
  let p := mkPage box "" "" "" "" "" "" "" "" false true CaptionOfForm 0 in
  resetBaseURLNote (loadSettings s p).

(** lines 97-108: the handler of [succeededApplyProperties]. *)
Definition succeededApplyProperties (succeed : list (string * string)) (w : World) : World :=
  mkWorld (set_button true CaptionDownloadAndApply (loadSettings (settings w) (page w)))
          (settings w) (property w) (dialogs w ++ [Information succeed]).

(** lines 109-116: the handler of [failedApplyProperties]. *)
Definition failedApplyProperties (reasons : string) (w : World) : World :=
  mkWorld (set_button true CaptionDownloadAndApply (page w))
          (settings w) (property w) (dialogs w ++ [Warning reasons]).

(** lines 224-231 *)
Definition on_applyPropertiesBtn_clicked (w : World) : World :=
  if applyPropertiesBtn_enabled (page w)
  then mkWorld (set_button false CaptionDownloading (page w)) (settings w)
               (Property.downloadAndApplyProperties (property w)) (dialogs w)
  else w.

(** What happens to the page: the button is clicked, the page is applied, or
    the service resolves a request.  On success the service has written the
    settings [s'] before it notifies the page. *)
Inductive Event :=
  | Clicked
  | Applied
  | Succeeded (succeed : list (string * string)) (s' : Settings.t)
  | Failed (reasons : string).

(** The service notifies only for a request that is unresolved. *)
Definition step (e : Event) (w : World) : World :=
  match e with
  | Clicked => on_applyPropertiesBtn_clicked w
  | Applied =>
      mkWorld (page w) (snd (apply (page w) (settings w))) (property w) (dialogs w)
  | Succeeded succeed s' =>
      match Property.unresolved (property w) with
      | O => w
      | S _ =>
          succeededApplyProperties succeed
            (mkWorld (page w) s' (Property.resolve (property w)) (dialogs w))
      end
  | Failed reasons =>
      match Property.unresolved (property w) with
      | O => w
      | S _ =>
          failedApplyProperties reasons
            (mkWorld (page w) (settings w) (Property.resolve (property w)) (dialogs w))
      end
  end.

Definition run (es : list Event) (w : World) : World :=
  fold_left (fun w e => step e w) es w.

(** The refresh control is the button: idle when enabled, in flight when
    disabled. *)
Inductive Control := Idle | InFlight.

Definition control (w : World) : Control :=
  if applyPropertiesBtn_enabled (page w) then Idle else InFlight.

Definition init (s : Settings.t) : World :=
  mkWorld (APIPage_new s) s Property.idle [].

(** ** Notions used in the statements *)

(** The two steps of [verifyUrl], and the URL it has built when it calls
    [toString]. *)
Definition addSlash_over {I : QUrlApi.ops} (u : QUrlApi.t I) : QUrlApi.t I :=
  if negb (QUrlApi.isEmpty u) && negb (endsWith "/" (QUrlApi.path u))
  then QUrlApi.setPath (QUrlApi.path u ++ "/")%string u else u.

Definition useHttps_over {I : QUrlApi.ops} (u : QUrlApi.t I) : QUrlApi.t I :=
  if negb (QUrlApi.isEmpty u) && String.eqb (QUrlApi.scheme u) "http"
  then QUrlApi.setScheme "https" u else u.

Definition normalized (I : QUrlApi.ops) (url : string) : QUrlApi.t I :=
  useHttps_over (addSlash_over (QUrlApi.fromString I url)).

(** [v] has the authority, the query and the fragment of [u]. *)
Definition same_rest {I : QUrlApi.ops} (v u : QUrlApi.t I) : Prop :=
  QUrlApi.authority v = QUrlApi.authority u /\
  QUrlApi.hasQuery v = QUrlApi.hasQuery u /\
  QUrlApi.query v = QUrlApi.query u /\
  QUrlApi.hasFragment v = QUrlApi.hasFragment u /\
  QUrlApi.fragment v = QUrlApi.fragment u.

(** [v] reads as [u] does. *)
Definition same_url {I : QUrlApi.ops} (v u : QUrlApi.t I) : Prop :=
  QUrlApi.isEmpty v = QUrlApi.isEmpty u /\
  QUrlApi.scheme v = QUrlApi.scheme u /\
  QUrlApi.path v = QUrlApi.path u /\
  same_rest v u /\
  QUrlApi.toString v = QUrlApi.toString u.

(** What the properties of [verifyUrl] take from QUrl.

    - The empty text is the empty URL, which is written as the empty text;
      no other text is read as the empty URL.
    - [path] returns what [setPath] has set (both work on the decoded path),
      and a URL with a path is not empty; [setPath] leaves the other
      components alone.
    - [scheme] returns the [https] that [setScheme] has set; [setScheme]
      leaves the other components alone.
    - [toString] writes a URL so that it is read back as the same URL, or
      writes nothing: [QUrl::toString] returns the empty string for a URL
      that is not valid, and a URL is valid when its text is read back as the
      same URL.  This is asked only of the URLs [verifyUrl] builds. *)
Record QUrl_laws (I : QUrlApi.ops) : Prop := {
  empty_isEmpty : QUrlApi.isEmpty (QUrlApi.fromString I "") = true;
  empty_toString : QUrlApi.toString (QUrlApi.fromString I "") = ""%string;
  text_isEmpty : forall x : string,
    x <> ""%string -> QUrlApi.isEmpty (QUrlApi.fromString I x) = false;
  setPath_path : forall (p : string) (u : QUrlApi.t I),
    QUrlApi.path (QUrlApi.setPath p u) = p;
  setPath_isEmpty : forall (p : string) (u : QUrlApi.t I),
    p <> ""%string -> QUrlApi.isEmpty (QUrlApi.setPath p u) = false;
  setPath_scheme : forall (p : string) (u : QUrlApi.t I),
    QUrlApi.scheme (QUrlApi.setPath p u) = QUrlApi.scheme u;
  setPath_rest : forall (p : string) (u : QUrlApi.t I),
    same_rest (QUrlApi.setPath p u) u;
  setScheme_scheme : forall u : QUrlApi.t I,
    QUrlApi.scheme (QUrlApi.setScheme "https" u) = "https"%string;
  setScheme_path : forall (s : string) (u : QUrlApi.t I),
    QUrlApi.path (QUrlApi.setScheme s u) = QUrlApi.path u;
  setScheme_rest : forall (s : string) (u : QUrlApi.t I),
    same_rest (QUrlApi.setScheme s u) u;
  reads_back : forall x : string,
    let u := normalized I x in
    QUrlApi.toString u = ""%string \/
    same_url (QUrlApi.fromString I (QUrlApi.toString u)) u
}.

(** The two steps with [QUrl_model]. *)
Definition addSlash (u : QUrl.t) : QUrl.t :=
  if negb (QUrl.isEmpty u) && negb (endsWith "/" (QUrl.path u))
  then QUrl.setPath (QUrl.path u ++ "/")%string u else u.

Definition useHttps (u : QUrl.t) : QUrl.t :=
  if negb (QUrl.isEmpty u) && String.eqb (QUrl.scheme u) "http"
  then QUrl.setScheme "https" u else u.

Module QUrlForm.
Import QUrl.

(** The four delimiters the parser looks for. *)
Definition delimiter (c : ascii) : bool :=
  Ascii.eqb c ":" || Ascii.eqb c "/" || Ascii.eqb c "?" || Ascii.eqb c "#".

(** The URLs the parser produces, and that [verifyUrl] keeps: each
    component is free of the delimiters that would end it, and the text in
    front of a first colon of a URL without scheme is not a scheme. *)
Record wf (u : t) : Prop := {
  wf_scheme :
    scheme_ u = [] \/
    (valid_scheme (scheme_ u) = true /\ map to_lower (scheme_ u) = scheme_ u);
  wf_auth : forall a, authority_ u = Some a ->
    ~ In "/" a /\ ~ In "?" a /\ ~ In "#" a /\
    (path_ u = [] \/ exists r, path_ u = "/" :: r);
  wf_noauth : authority_ u = None -> forall r, path_ u <> "/" :: "/" :: r;
  wf_rel : scheme_ u = [] -> authority_ u = None ->
    forall s r, break ":" (path_ u) = (s, Some r) -> valid_scheme s = false;
  wf_path : ~ In "?" (path_ u) /\ ~ In "#" (path_ u);
  wf_query : forall q, query_ u = Some q -> ~ In "#" q
}.

(** What is read back from the text of [u]: [u] itself, but for the local
    file that was written with the empty authority. *)
Definition canon (u : t) : t :=
  match authority_ u with
  | None =>
      if isLocalFile u && pathIsAbsolute u
      then mk (scheme_ u) (Some []) (path_ u) (query_ u) (fragment_ u)
      else u
  | Some _ => u
  end.

(** The text of [u] before its query and fragment. *)
Definition front (u : t) : list ascii :=
  schemePart u ++ authorityPart u ++ path_ u.

End QUrlForm.

(** The text of a URL before its query and fragment, and the rest. *)
Definition hier (l : list ascii) : list ascii :=
  fst (break "?" (fst (break "#" l))).

Definition afterHier (l : list ascii) : list ascii :=
  skipn (length (hier l)) l.

Fixpoint strip_prefix (pre l : list ascii) : option (list ascii) :=
  match pre, l with
  | [], _ => Some l
  | x :: pre', y :: l' => if Ascii.eqb x y then strip_prefix pre' l' else None
  | _ :: _, [] => None
  end.

(** [http:] at the front replaced by [https:]. *)
Definition rewrite_http (l : list ascii) : list ascii :=
  match strip_prefix (list_ascii_of_string "http:") l with
  | Some r => list_ascii_of_string "https:" ++ r
  | None => l
  end.

(** The keys of the three URL overrides. *)
Definition urlKeys : list string :=
  [ "MetaURLOverride"; "MinecraftResourceURLOverride"; "MinecraftLibrariesURLOverride" ]%string.

(** The text field of the form that belongs to a URL override. *)
Definition urlField (k : string) (p : APIPage) : string :=
  if String.eqb k "MetaURLOverride" then metaURL p
  else if String.eqb k "MinecraftResourceURLOverride" then resourceURL p
  else librariesURL p.

(** The button is disabled exactly while one request is unresolved. *)
Definition consistent (w : World) : Prop :=
  Property.unresolved (property w) =
  match control w with Idle => 0 | InFlight => 1 end.

(** The nine keys the page reads and writes. *)
Definition settingKeys : list string :=
  [ "PastebinType"; "PastebinCustomAPIBase"; "MSAClientIDOverride";
    "MetaURLOverride"; "MinecraftResourceURLOverride";
    "MinecraftLibrariesURLOverride"; "FlameKeyOverride"; "ModrinthToken";
    "UserAgentOverride" ]%string.

(** The three URL overrides of a store are results of [verifyUrl], as
    [applySettings] leaves them. *)
Definition produced (I : QUrlApi.ops) (s : Settings.t) : Prop :=
  forall k, In k urlKeys -> exists x, s !! k = Some (QStr (verifyUrl_over I x)).

(** What [verifyUrl] makes of the text [x] of a field: the empty text, or
    the text of a URL whose path, as [QUrl::path] reads it, ends with a
    slash, and whose scheme is [https] where that of [x] was [http]. *)
Definition stored_url (I : QUrlApi.ops) (x v : string) : Prop :=
  v = verifyUrl_over I x /\
  (v = ""%string \/
   (endsWith "/" (QUrlApi.path (QUrlApi.fromString I v)) = true /\
    QUrlApi.scheme (QUrlApi.fromString I v) =
      (if String.eqb (QUrlApi.scheme (QUrlApi.fromString I x)) "http"
       then "https"%string
       else QUrlApi.scheme (QUrlApi.fromString I x)))).

(** The user types [text] into the field of the meta server's URL. *)
Definition typed_metaURL (text : string) (p : APIPage) : APIPage :=
  mkPage (pasteTypeComboBox p) (baseURLEntry p) (msaClientID p) text
         (resourceURL p) (librariesURL p) (flameKey p) (modrinthToken p)
         (userAgentLineEdit p) (baseURLNote_visible p)
         (applyPropertiesBtn_enabled p) (applyPropertiesBtn_text p)
         (baseURLPasteType p).

(** The page built over empty settings, with [meta] typed into that field. *)
Definition a_page (meta : string) : APIPage :=
  typed_metaURL meta (APIPage_new ∅).

(** The two notifications of the service. *)
Definition is_outcome (e : Event) : bool :=
  match e with
  | Succeeded _ _ | Failed _ => true
  | Clicked | Applied => false
  end.

(** ** Further parts of the page *)

(** The validator of the URL fields (lines 64 and 80-83).  A
    [QRegularExpressionValidator] accepts a text when the whole of it matches
    the pattern, here [https?://.+]; the dot stands for any character but the
    line feed. *)
Definition dot (c : ascii) : bool := negb (Ascii.eqb c "010").

Definition one_or_more (p : ascii -> bool) (l : list ascii) : bool :=
  match l with
  | [] => false
  | _ :: _ => forallb p l
  end.

Definition validUrlRegExp (text : string) : bool :=
  let l := list_ascii_of_string text in
  match strip_prefix (list_ascii_of_string "https://") l with
  | Some r => one_or_more dot r
  | None =>
      match strip_prefix (list_ascii_of_string "http://") l with
      | Some r => one_or_more dot r
      | None => false
      end
  end.

(** The table of the paste types ([PasteUpload::PasteTypes], declared in
    net/PasteUpload.h) is taken as a parameter; [at] fails outside the
    table, where [std::array::at] throws. *)
Module PasteTypes.

Record PasteTypeInfo := mk {
  name : string;
  defaultBase : string
}.

Definition at_ (table : list PasteTypeInfo) (i : Z) : option PasteTypeInfo :=
  if (i <? 0)%Z then None else nth_error table (Z.to_nat i).

End PasteTypes.

(** lines 139-144: the placeholder text the base URL entry gets. *)
Definition updateBaseURLPlaceholder
    (table : list PasteTypes.PasteTypeInfo) (index : Z) (p : APIPage) : option string :=
  let pasteType := QVariant_toInt (QComboBox.itemData index (pasteTypeComboBox p)) in
  match PasteTypes.at_ table pasteType with
  | Some info => Some (PasteTypes.defaultBase info)
  | None => None
  end.

(** lines 71-73: the texts of the items the constructor adds to the combo
    box, one for each of [comboBoxEntries]. *)
Fixpoint itemTexts (table : list PasteTypes.PasteTypeInfo) (entries : list Z)
    : option (list string) :=
  match entries with
  | [] => Some []
  | pasteType :: rest =>
      match PasteTypes.at_ table pasteType, itemTexts table rest with
      | Some info, Some texts => Some (PasteTypes.name info :: texts)
      | _, _ => None
      end
  end.

(** The combo box has a current item. *)
Definition has_selection (c : QComboBox.t) : Prop :=
  (0 <= QComboBox.currentIndex c < QComboBox.count c)%Z.

(** Every request started was answered by one message box or is still
    unresolved. *)
Definition accounted (w : World) : Prop :=
  Property.started (property w) =
  (length (dialogs w) + Property.unresolved (property w))%nat.

(** The four settings, besides the paste service's, that [applySettings]
    stores as the form has them. *)
Definition plainKeys : list string :=
  [ "MSAClientIDOverride"; "FlameKeyOverride"; "ModrinthToken";
    "UserAgentOverride" ]%string.

(** The index [loadSettings] selects: that of the stored paste type, or
    that of [Mclogs] when the stored one is not in the box. *)
Definition pasteTypeIndex (s : Settings.t) (box : QComboBox.t) : Z :=
  let found := QComboBox.findData (QVariant_toInt (Settings.get "PastebinType" s)) box in
  if (found =? -1)%Z
  then QComboBox.findData (PasteUpload.value PasteUpload.Mclogs) box
  else found.

(** * Properties *)

(** ** Character lists *)

Section Lists.

Implicit Types (c d : ascii) (l a b : list ascii).

Lemma break_inv c l a o :
  break c l = (a, o) ->
  ~ In c a /\ l = a ++ match o with Some b => c :: b | None => [] end.
Proof.
  revert a o. induction l as [|x t IH]; simpl; intros a o E.
  - inversion E; subst. split; [intros [] | reflexivity].
  - destruct (Ascii.eqb_spec x c) as [->|N].
    + inversion E; subst. split; [intros [] | reflexivity].
    + destruct (break c t) as [a' o'] eqn:B. inversion E; subst.
      destruct (IH _ _ eq_refl) as [Hn ->]. split.
      * intros [H|H]; [congruence | tauto].
      * reflexivity.
Qed.

Lemma break_here c a b : ~ In c a -> break c (a ++ c :: b) = (a, Some b).
Proof.
  induction a as [|x a IH]; simpl; intros Hn.
  - now rewrite Ascii.eqb_refl.
  - destruct (Ascii.eqb_spec x c) as [->|N]; [tauto|].
    rewrite IH by tauto. reflexivity.
Qed.

Lemma break_none c a : ~ In c a -> break c a = (a, None).
Proof.
  induction a as [|x a IH]; simpl; intros Hn; [reflexivity|].
  destruct (Ascii.eqb_spec x c) as [->|N]; [tauto|].
  rewrite IH by tauto. reflexivity.
Qed.

Lemma until_from c l : until c l ++ from c l = l.
Proof.
  induction l as [|x t IH]; simpl; [reflexivity|].
  destruct (Ascii.eqb x c); simpl; [reflexivity | now rewrite IH].
Qed.

Lemma until_no c l : ~ In c (until c l).
Proof.
  induction l as [|x t IH]; simpl; [tauto|].
  destruct (Ascii.eqb_spec x c) as [->|N]; simpl; [tauto|].
  intros [H|H]; [congruence | tauto].
Qed.

Lemma from_head c l : from c l = [] \/ exists r, from c l = c :: r.
Proof.
  induction l as [|x t IH]; simpl; [now left|].
  destruct (Ascii.eqb_spec x c) as [->|N]; [right; eauto | exact IH].
Qed.

Lemma until_here c a p :
  ~ In c a -> (p = [] \/ exists r, p = c :: r) -> until c (a ++ p) = a.
Proof.
  induction a as [|x a IH]; simpl; intros Hn Hp.
  - destruct Hp as [->|[r ->]]; simpl; [reflexivity | now rewrite Ascii.eqb_refl].
  - destruct (Ascii.eqb_spec x c) as [->|N]; [tauto|].
    rewrite IH; tauto.
Qed.

Lemma from_here c a p :
  ~ In c a -> (p = [] \/ exists r, p = c :: r) -> from c (a ++ p) = p.
Proof.
  induction a as [|x a IH]; simpl; intros Hn Hp.
  - destruct Hp as [->|[r ->]]; simpl; [reflexivity | now rewrite Ascii.eqb_refl].
  - destruct (Ascii.eqb_spec x c) as [->|N]; [tauto|].
    apply IH; tauto.
Qed.

Lemma ends_with_last c l : ends_with c (l ++ [c]) = true.
Proof.
  induction l as [|x t IH]; simpl; [apply Ascii.eqb_refl|].
  destruct (t ++ [c]) eqn:E; [destruct t; discriminate | exact IH].
Qed.

Lemma list_ascii_of_string_app (s1 s2 : string) :
  list_ascii_of_string (s1 ++ s2)%string =
  list_ascii_of_string s1 ++ list_ascii_of_string s2.
Proof. induction s1 as [|x s1 IH]; simpl; [reflexivity | now rewrite IH]. Qed.

End Lists.

(** ** The implementation of QUrl: parsing what was written gives the same URL *)

Module QUrlFacts.
Import QUrl QUrlForm.

Ltac each_char c := destruct c as [[|] [|] [|] [|] [|] [|] [|] [|]].

Lemma scheme_char_lower c : scheme_char (to_lower c) = scheme_char c.
Proof. each_char c; reflexivity. Qed.

Lemma scheme_first_lower c : scheme_first (to_lower c) = scheme_first c.
Proof. each_char c; reflexivity. Qed.

Lemma to_lower_idem c : to_lower (to_lower c) = to_lower c.
Proof. each_char c; reflexivity. Qed.

Lemma scheme_first_char c : scheme_first c = true -> scheme_char c = true.
Proof. each_char c; intros H; try reflexivity; discriminate H. Qed.

Lemma scheme_char_delimiter c : scheme_char c = true -> delimiter c = false.
Proof. each_char c; intros H; try reflexivity; discriminate H. Qed.

Lemma valid_scheme_chars s c :
  valid_scheme s = true -> In c s -> scheme_char c = true.
Proof.
  destruct s as [|x r]; simpl; [discriminate|].
  intros H [<-|Hc]; apply andb_prop in H as [H1 H2].
  - now apply scheme_first_char.
  - rewrite forallb_forall in H2. now apply H2.
Qed.

Lemma valid_scheme_no d s :
  valid_scheme s = true -> delimiter d = true -> ~ In d s.
Proof.
  intros Hv Hd Hin. apply (valid_scheme_chars _ _ Hv) in Hin.
  apply scheme_char_delimiter in Hin. congruence.
Qed.

Lemma valid_scheme_lower s : valid_scheme (map to_lower s) = valid_scheme s.
Proof.
  destruct s as [|x r]; simpl; [reflexivity|].
  rewrite scheme_first_lower. f_equal.
  induction r as [|y r IH]; simpl; [reflexivity|].
  now rewrite scheme_char_lower, IH.
Qed.

Lemma lower_lower s : map to_lower (map to_lower s) = map to_lower s.
Proof. rewrite map_map. apply map_ext. apply to_lower_idem. Qed.

Lemma valid_scheme_head d r : valid_scheme (d :: r) = true -> delimiter d = false.
Proof.
  intros H. apply scheme_char_delimiter.
  apply (valid_scheme_chars _ _ H). now left.
Qed.

(** What [split_hier] returns. *)
Lemma split_hier_inv h a p :
  split_hier h = (a, p) ->
  match a with
  | Some a' => h = "/" :: "/" :: a' ++ p /\ ~ In "/" a' /\
               (p = [] \/ exists r, p = "/" :: r)
  | None => p = h /\ forall r, h <> "/" :: "/" :: r
  end.
Proof.
  unfold split_hier. destruct h as [|x [|y r]].
  - intros E; inversion E; subst. split; [reflexivity | discriminate].
  - intros E; inversion E; subst. split; [reflexivity | discriminate].
  - destruct (Ascii.eqb_spec x "/") as [->|Nx]; simpl.
    + destruct (Ascii.eqb_spec y "/") as [->|Ny]; intros E; inversion E; subst.
      * rewrite until_from. split; [reflexivity|].
        split; [apply until_no | apply from_head].
      * split; [reflexivity | intros r' H; inversion H; congruence].
    + intros E; inversion E; subst.
      split; [reflexivity | intros r' H; inversion H; congruence].
Qed.

Lemma split_hier_auth a p :
  ~ In "/" a -> (p = [] \/ exists r, p = "/" :: r) ->
  split_hier ("/" :: "/" :: a ++ p) = (Some a, p).
Proof.
  intros Ha Hp. unfold split_hier. simpl.
  now rewrite until_here, from_here.
Qed.

Lemma split_hier_path p :
  (forall r, p <> "/" :: "/" :: r) -> split_hier p = (None, p).
Proof.
  intros H. unfold split_hier. destruct p as [|x [|y r]]; try reflexivity.
  destruct (Ascii.eqb_spec x "/") as [->|Nx]; simpl; [|reflexivity].
  destruct (Ascii.eqb_spec y "/") as [->|Ny]; [|reflexivity].
  now destruct (H r).
Qed.

Lemma not_in_app (c : ascii) a b : ~ In c (a ++ b) <-> ~ In c a /\ ~ In c b.
Proof. rewrite in_app_iff. tauto. Qed.

Lemma not_in_cons (c x : ascii) b : ~ In c (x :: b) <-> c <> x /\ ~ In c b.
Proof. simpl. intuition congruence. Qed.

(** The parser's last step gives a well-formed URL. *)
Lemma split_hier_wf sch rest q f :
  sch = [] \/ (valid_scheme sch = true /\ map to_lower sch = sch) ->
  ~ In "?" rest -> ~ In "#" rest ->
  (sch = [] -> forall s r, break ":" rest = (s, Some r) -> valid_scheme s = false) ->
  (forall q', q = Some q' -> ~ In "#" q') ->
  wf (let '(a, p) := split_hier rest in mk sch a p q f).
Proof.
  intros Hs H1 H2 Hrel Hq.
  destruct (split_hier rest) as [a p] eqn:S. apply split_hier_inv in S.
  constructor; cbn [scheme_ authority_ path_ query_ fragment_].
  - exact Hs.
  - intros a' ->. destruct S as (-> & Ha & Hp).
    repeat (rewrite ?not_in_app, ?not_in_cons in H1, H2). tauto.
  - intros ->. now destruct S as (-> & S).
  - intros E ->. destruct S as (-> & _). now apply Hrel.
  - destruct a as [a'|]; [destruct S as (-> & _) | destruct S as (-> & _)];
      repeat (rewrite ?not_in_app, ?not_in_cons in H1, H2); tauto.
  - exact Hq.
Qed.

Lemma parse_wf url : wf (parse url).
Proof.
  unfold parse.
  destruct (break "#" url) as [pre frag] eqn:B1.
  destruct (break "?" pre) as [hier query] eqn:B2.
  apply break_inv in B1 as [Hpre _]. apply break_inv in B2 as [Hq ->].
  apply not_in_app in Hpre as [Hh Hqq].
  assert (Hquery : forall q, query = Some q -> ~ In "#" q).
  { intros q ->. now apply not_in_cons in Hqq. }
  destruct (break ":" hier) as [s [r|]] eqn:B3;
    [destruct (valid_scheme s) eqn:V|].
  - apply break_inv in B3 as [_ ->].
    apply not_in_app in Hh as [_ Hh], Hq as [_ Hq].
    apply not_in_cons in Hh as [_ Hh], Hq as [_ Hq].
    apply split_hier_wf; try assumption.
    + right. split; [now rewrite valid_scheme_lower | apply lower_lower].
    + intros E. apply map_eq_nil in E. subst s. discriminate V.
  - apply split_hier_wf; try assumption; [now left|].
    intros _ s' r' B. rewrite B in B3. now inversion B3; subst.
  - apply split_hier_wf; try assumption; [now left|].
    intros _ s' r' B. rewrite B in B3. discriminate.
Qed.

Lemma break_opt c a o :
  ~ In c a ->
  break c (a ++ match o with Some b => c :: b | None => [] end) = (a, o).
Proof.
  intros H. destruct o as [b|].
  - now apply break_here.
  - rewrite app_nil_r. now apply break_none.
Qed.

Lemma schemePart_valid u :
  valid_scheme (scheme_ u) = true -> schemePart u = scheme_ u ++ [":"].
Proof. unfold schemePart. destruct (scheme_ u); [discriminate | reflexivity]. Qed.

Lemma schemePart_no u d :
  wf u -> delimiter d = true -> d <> ":" -> ~ In d (schemePart u).
Proof.
  intros W Hd Hn. destruct (wf_scheme u W) as [E|[Hv _]].
  - unfold schemePart. rewrite E. tauto.
  - rewrite (schemePart_valid _ Hv), not_in_app, not_in_cons.
    split; [now apply valid_scheme_no | tauto].
Qed.

Lemma authorityPart_no u d :
  delimiter d = true -> d <> "/" ->
  (forall a, authority_ u = Some a -> ~ In d a) -> ~ In d (authorityPart u).
Proof.
  intros Hd Hn H. unfold authorityPart. destruct (authority_ u) as [a|].
  - rewrite !not_in_cons. repeat split; auto.
  - destruct (_ && _); [rewrite !not_in_cons; tauto | tauto].
Qed.

Lemma front_no u : wf u -> ~ In "#" (front u) /\ ~ In "?" (front u).
Proof.
  intros W. unfold front. rewrite !not_in_app. split; (split; [|split]).
  - apply schemePart_no; [exact W | reflexivity | discriminate].
  - apply authorityPart_no; [reflexivity | discriminate |].
    intros a E. now apply (wf_auth u W).
  - apply (wf_path u W).
  - apply schemePart_no; [exact W | reflexivity | discriminate].
  - apply authorityPart_no; [reflexivity | discriminate |].
    intros a E. now apply (wf_auth u W).
  - apply (wf_path u W).
Qed.

Lemma unparse_front u : unparse u = (front u ++ queryPart u) ++ fragmentPart u.
Proof. unfold unparse, front. now rewrite <- !app_assoc. Qed.

Lemma break_fragment u :
  wf u -> break "#" (unparse u) = (front u ++ queryPart u, fragment_ u).
Proof.
  intros W. rewrite unparse_front. unfold fragmentPart. apply break_opt.
  rewrite not_in_app. split; [apply (front_no u W)|].
  unfold queryPart. destruct (query_ u) as [q|] eqn:Q; [|tauto].
  rewrite not_in_cons. split; [discriminate | now apply (wf_query u W)].
Qed.

Lemma break_query u :
  wf u -> break "?" (front u ++ queryPart u) = (front u, query_ u).
Proof. intros W. unfold queryPart. apply break_opt, (front_no u W). Qed.

(** The scheme the parser finds in front of the first colon is the scheme
    of the URL that was written. *)
Lemma scheme_found u :
  wf u ->
  match break ":" (front u) with
  | (s, Some r) => if valid_scheme s then (map to_lower s, r) else ([], front u)
  | (_, None) => ([], front u)
  end = (scheme_ u, authorityPart u ++ path_ u).
Proof.
  intros W. unfold front. destruct (wf_scheme u W) as [E|[Hv Hl]].
  - assert (S : schemePart u = []) by (unfold schemePart; now rewrite E).
    rewrite S, E. cbn [app].
    destruct (break ":" (authorityPart u ++ path_ u)) as [s [r|]] eqn:B; [|reflexivity].
    destruct (valid_scheme s) eqn:V; [exfalso | reflexivity].
    unfold authorityPart, isLocalFile in B. rewrite E in B.
    destruct (authority_ u) as [a|] eqn:A.
    + apply break_inv in B as [_ B].
      destruct s as [|d s']; [discriminate V|].
      simpl in B. inversion B; subst d.
      apply valid_scheme_head in V. discriminate V.
    + cbn in B. rewrite (wf_rel u W E A _ _ B) in V. discriminate.
  - rewrite (schemePart_valid _ Hv), <- app_assoc. cbn [app].
    rewrite break_here by (apply valid_scheme_no; [exact Hv | reflexivity]).
    now rewrite Hv, Hl.
Qed.

Lemma split_hier_written u :
  wf u ->
  split_hier (authorityPart u ++ path_ u) = (authority_ (canon u), path_ u).
Proof.
  intros W. unfold authorityPart, canon.
  destruct (authority_ u) as [a|] eqn:A.
  - rewrite A. destruct (wf_auth u W a A) as (H1 & _ & _ & H4).
    change (("/" :: "/" :: a) ++ path_ u) with ("/" :: "/" :: a ++ path_ u).
    now apply split_hier_auth.
  - destruct (isLocalFile u && pathIsAbsolute u) eqn:L.
    + apply andb_prop in L as [_ L]. unfold pathIsAbsolute in L.
      destruct (path_ u) as [|c r]; [discriminate|].
      apply Ascii.eqb_eq in L. subst c. cbn [authority_].
      change (["/"; "/"] ++ "/" :: r) with ("/" :: "/" :: [] ++ "/" :: r).
      apply split_hier_auth; [tauto | right; eauto].
    + rewrite A. cbn [app]. apply split_hier_path, (wf_noauth u W A).
Qed.

Lemma canon_fields u :
  scheme_ (canon u) = scheme_ u /\ path_ (canon u) = path_ u /\
  query_ (canon u) = query_ u /\ fragment_ (canon u) = fragment_ u.
Proof.
  unfold canon. destruct (authority_ u); [tauto|].
  destruct (isLocalFile u && pathIsAbsolute u); cbn; tauto.
Qed.

Lemma parse_unparse u : wf u -> parse (unparse u) = canon u.
Proof.
  intros W. unfold parse.
  rewrite (break_fragment u W). cbv beta iota.
  rewrite (break_query u W). cbv beta iota.
  rewrite (scheme_found u W). cbv beta iota.
  rewrite (split_hier_written u W). cbv beta iota.
  destruct (canon_fields u) as (<- & <- & <- & <-).
  now destruct (canon u).
Qed.

Lemma endsWith_path u : endsWith "/" (path u) = ends_with "/" (path_ u).
Proof. unfold endsWith, path. now rewrite list_ascii_of_string_of_list_ascii. Qed.

Lemma setPath_slash u :
  setPath (path u ++ "/")%string u =
  mk (scheme_ u) (authority_ u) (path_ u ++ ["/"]) (query_ u) (fragment_ u).
Proof.
  unfold setPath, path.
  now rewrite list_ascii_of_string_app, list_ascii_of_string_of_list_ascii.
Qed.

Lemma break_snoc c d l :
  d <> c ->
  break c (l ++ [d]) =
  match break c l with
  | (a, Some b) => (a, Some (b ++ [d]))
  | (a, None) => (a ++ [d], None)
  end.
Proof.
  intros N. induction l as [|x t IH]; simpl.
  - destruct (Ascii.eqb_spec d c); [congruence | reflexivity].
  - destruct (Ascii.eqb x c); [reflexivity|].
    rewrite IH. now destruct (break c t) as [a [b|]].
Qed.

Lemma addSlash_wf u : wf u -> wf (addSlash u).
Proof.
  intros W. unfold addSlash.
  destruct (negb (isEmpty u) && negb (endsWith "/" (path u))) eqn:C; [|exact W].
  apply andb_prop in C as [_ C]. rewrite endsWith_path in C.
  apply negb_true_iff in C. rewrite setPath_slash.
  destruct W as [Hs Ha Hna Hrel [Hp1 Hp2] Hq].
  constructor; cbn [scheme_ authority_ path_ query_ fragment_].
  - exact Hs.
  - intros a E. destruct (Ha a E) as (H1 & H2 & H3 & [H4|[r H4]]).
    + rewrite H4. repeat split; auto. right. now exists [].
    + rewrite H4. repeat split; auto. right. now exists (r ++ ["/"]).
  - intros E r H. specialize (Hna E).
    destruct (path_ u) as [|x [|y t]].
    + discriminate H.
    + inversion H; subst. simpl in C. discriminate C.
    + inversion H; subst. now apply (Hna t).
  - intros E1 E2 s r B. rewrite break_snoc in B by discriminate.
    destruct (break ":" (path_ u)) as [a [b|]] eqn:B'; inversion B; subst.
    now apply (Hrel E1 E2 _ _ eq_refl).
  - rewrite !not_in_app, !not_in_cons. repeat split; auto; discriminate.
  - exact Hq.
Qed.

Lemma setScheme_https u :
  setScheme "https" u =
  mk (list_ascii_of_string "https") (authority_ u) (path_ u) (query_ u) (fragment_ u).
Proof. reflexivity. Qed.

Lemma useHttps_wf u : wf u -> wf (useHttps u).
Proof.
  intros W. unfold useHttps.
  destruct (negb (isEmpty u) && String.eqb (scheme u) "http") eqn:C; [|exact W].
  rewrite setScheme_https.
  destruct W as [Hs Ha Hna Hrel Hp Hq].
  constructor; cbn [scheme_ authority_ path_ query_ fragment_].
  - right. split; reflexivity.
  - exact Ha.
  - exact Hna.
  - discriminate.
  - exact Hp.
  - exact Hq.
Qed.

Lemma unparse_canon u : unparse (canon u) = unparse u.
Proof.
  unfold canon. destruct (authority_ u) eqn:A; [reflexivity|].
  destruct (isLocalFile u && pathIsAbsolute u) eqn:L; [|reflexivity].
  unfold unparse, schemePart, authorityPart, queryPart, fragmentPart.
  cbn [scheme_ authority_ path_ query_ fragment_].
  rewrite A. unfold isLocalFile, pathIsAbsolute in *. now rewrite L.
Qed.

Lemma fromString_wf x : wf (fromString x).
Proof. apply parse_wf. Qed.

Lemma parse_nonempty l : l <> [] -> isEmpty (parse l) = false.
Proof.
  intros N. unfold parse.
  destruct (break "#" l) as [pre [f|]] eqn:B1;
    [destruct (break "?" pre) as [hier query], (match break ":" hier with
       | (s, Some r) => if valid_scheme s then (map to_lower s, r) else ([], hier)
       | (_, None) => ([], hier) end) as [sch rest], (split_hier rest) as [a p];
     unfold isEmpty; cbn; now destruct sch, a, p, query |].
  apply break_inv in B1 as [_ B1]. rewrite app_nil_r in B1. subst pre.
  destruct (break "?" l) as [hier [q|]] eqn:B2;
    [destruct (match break ":" hier with
       | (s, Some r) => if valid_scheme s then (map to_lower s, r) else ([], hier)
       | (_, None) => ([], hier) end) as [sch rest], (split_hier rest) as [a p];
     unfold isEmpty; cbn; now destruct sch, a, p |].
  apply break_inv in B2 as [_ B2]. rewrite app_nil_r in B2. subst hier.
  assert (H : forall a p, split_hier l = (a, p) -> isEmpty (mk [] a p None None) = false).
  { intros a p S. apply split_hier_inv in S. destruct a as [a'|]; [reflexivity|].
    destruct S as [-> _]. unfold isEmpty; cbn. now destruct l. }
  destruct (break ":" l) as [s [r|]] eqn:B3.
  - destruct (valid_scheme s) eqn:V.
    + destruct (split_hier r) as [a p]. unfold isEmpty; cbn.
      destruct s; [discriminate V | reflexivity].
    + destruct (split_hier l) as [a p] eqn:S. now apply H.
  - destruct (split_hier l) as [a p] eqn:S. now apply H.
Qed.

Lemma fromString_nonempty x : x <> ""%string -> isEmpty (fromString x) = false.
Proof.
  intros N. apply parse_nonempty. intros E. apply N.
  rewrite <- (string_of_list_ascii_of_string x), E. reflexivity.
Qed.

Lemma strip_prefix_inv pre l r : strip_prefix pre l = Some r -> l = pre ++ r.
Proof.
  revert l. induction pre as [|x pre IH]; simpl; intros l H.
  - now inversion H.
  - destruct l as [|y l]; [discriminate|].
    destruct (Ascii.eqb_spec x y) as [->|]; [|discriminate].
    now rewrite (IH _ H).
Qed.

(** *** The implementation keeps the laws *)

Lemma isEmpty_canon u : isEmpty (canon u) = isEmpty u.
Proof.
  unfold canon. destruct (authority_ u) eqn:A; [reflexivity|].
  destruct (isLocalFile u && pathIsAbsolute u) eqn:L; [|reflexivity].
  apply andb_prop in L as [L _]. unfold isLocalFile in L.
  unfold isEmpty; cbn [scheme_ authority_ path_ query_ fragment_].
  destruct (scheme_ u); [discriminate L | reflexivity].
Qed.

Lemma isValid_canon u : isValid u = true -> isValid (canon u) = true.
Proof.
  intros V. unfold canon. destruct (authority_ u) eqn:A; [exact V|].
  destruct (isLocalFile u && pathIsAbsolute u) eqn:L; [|exact V].
  apply andb_prop in L as [L1 L2]. unfold isLocalFile in L1.
  unfold pathIsAbsolute in L2.
  unfold isValid, isEmpty; cbn [scheme_ authority_ path_ query_ fragment_].
  destruct (scheme_ u); [discriminate L1|].
  destruct (path_ u) as [|c r]; [discriminate L2|]. now rewrite L2.
Qed.

Lemma toString_valid u :
  isValid u = true -> toString u = string_of_list_ascii (unparse u).
Proof. intros V. unfold toString. now rewrite V. Qed.

Lemma fromString_toString u :
  wf u -> isValid u = true -> fromString (toString u) = canon u.
Proof.
  intros W V. rewrite (toString_valid u V). unfold fromString.
  rewrite list_ascii_of_string_of_list_ascii. now apply parse_unparse.
Qed.

Lemma toString_canon u : isValid u = true -> toString (canon u) = toString u.
Proof.
  intros V. rewrite (toString_valid u V), (toString_valid _ (isValid_canon u V)).
  now rewrite unparse_canon.
Qed.

Lemma authority_canon u : authority (canon u) = authority u.
Proof.
  unfold authority, canon. destruct (authority_ u) eqn:A; [now rewrite A|].
  destruct (isLocalFile u && pathIsAbsolute u); cbn [authority_]; now rewrite ?A.
Qed.

Lemma canon_reads u :
  isValid u = true -> @same_url QUrl_model (canon u) u.
Proof.
  intros V. destruct (canon_fields u) as (Cs & Cp & Cq & Cf).
  unfold same_url, same_rest.
  cbn [QUrlApi.isEmpty QUrlApi.scheme QUrlApi.path QUrlApi.authority
       QUrlApi.hasQuery QUrlApi.query QUrlApi.hasFragment QUrlApi.fragment
       QUrlApi.toString QUrl_model].
  unfold scheme, path, hasQuery, query, hasFragment, fragment.
  rewrite Cs, Cp, Cq, Cf, isEmpty_canon, authority_canon, (toString_canon u V).
  tauto.
Qed.

Lemma isEmpty_setPath p u : p <> ""%string -> isEmpty (setPath p u) = false.
Proof.
  intros N. unfold isEmpty, setPath; cbn [scheme_ authority_ path_ query_ fragment_].
  destruct p as [|c p]; [congruence|]. cbn [list_ascii_of_string].
  now destruct (scheme_ u), (authority_ u).
Qed.

Lemma normalized_model x :
  normalized QUrl_model x = useHttps (addSlash (fromString x)).
Proof. reflexivity. Qed.

Lemma QUrl_model_laws : QUrl_laws QUrl_model.
Proof.
  constructor;
    cbn [QUrlApi.fromString QUrlApi.isEmpty QUrlApi.scheme QUrlApi.setScheme
         QUrlApi.path QUrlApi.setPath QUrlApi.toString QUrl_model].
  - reflexivity.
  - reflexivity.
  - apply fromString_nonempty.
  - intros p u. unfold path, setPath. cbn [path_].
    apply string_of_list_ascii_of_string.
  - apply isEmpty_setPath.
  - reflexivity.
  - intros p u. repeat split.
  - reflexivity.
  - reflexivity.
  - intros s u. repeat split.
  - intros x. cbv zeta. rewrite normalized_model.
    set (u := useHttps (addSlash (fromString x))).
    assert (W : wf u) by apply useHttps_wf, addSlash_wf, fromString_wf.
    destruct (isValid u) eqn:V.
    + right. rewrite (fromString_toString u W V). now apply canon_reads.
    + left. unfold toString. now rewrite V.
Qed.

End QUrlFacts.

(** ** verifyUrl, for every QUrl that keeps the laws *)

Module VerifyUrlFacts.
Import QUrlApi.
Local Open Scope string_scope.

Section Laws.
Context {I : QUrlApi.ops} (L : QUrl_laws I).

Lemma verifyUrl_over_steps x : verifyUrl_over I x = toString (normalized I x).
Proof. reflexivity. Qed.


Lemma append_nonempty (a : string) : a ++ "/" <> "".
Proof. destruct a; discriminate. Qed.

Lemma endsWith_append (a : string) : endsWith "/" (a ++ "/") = true.
Proof.
  unfold endsWith. rewrite list_ascii_of_string_app. apply ends_with_last.
Qed.

(** The first step on a URL that is not empty. *)
Lemma addSlash_over_spec (u : t I) :
  isEmpty u = false ->
  isEmpty (addSlash_over u) = false /\
  endsWith "/" (path (addSlash_over u)) = true /\
  path (addSlash_over u) = (if endsWith "/" (path u) then path u else path u ++ "/") /\
  scheme (addSlash_over u) = scheme u /\
  same_rest (addSlash_over u) u.
Proof.
  intros E. unfold addSlash_over. rewrite E. cbn [negb andb].
  destruct (endsWith "/" (path u)) eqn:P; cbn [negb].
  - repeat split; assumption.
  - rewrite (setPath_path I L), (setPath_scheme I L).
    split; [apply (setPath_isEmpty I L), append_nonempty|].
    split; [apply endsWith_append|].
    split; [reflexivity|]. split; [reflexivity | apply (setPath_rest I L)].
Qed.

(** The second step on a URL that is not empty. *)
Lemma useHttps_over_spec (u : t I) :
  isEmpty u = false ->
  path (useHttps_over u) = path u /\
  scheme (useHttps_over u) = (if String.eqb (scheme u) "http" then "https" else scheme u) /\
  same_rest (useHttps_over u) u.
Proof.
  intros E. unfold useHttps_over. rewrite E. cbn [negb andb].
  destruct (String.eqb (scheme u) "http").
  - rewrite (setScheme_path I L), (setScheme_scheme I L).
    split; [reflexivity|]. split; [reflexivity | apply (setScheme_rest I L)].
  - repeat split.
Qed.

Lemma normalized_empty x :
  isEmpty (fromString I x) = true -> normalized I x = fromString I x.
Proof.
  intros E. unfold normalized, addSlash_over. rewrite E. cbn [negb andb].
  unfold useHttps_over. now rewrite E.
Qed.

(** The URL [verifyUrl] builds from a URL that is not empty. *)
Lemma normalized_spec x :
  isEmpty (fromString I x) = false ->
  endsWith "/" (path (normalized I x)) = true /\
  path (normalized I x) =
    (if endsWith "/" (path (fromString I x)) then path (fromString I x)
     else path (fromString I x) ++ "/") /\
  scheme (normalized I x) =
    (if String.eqb (scheme (fromString I x)) "http" then "https"
     else scheme (fromString I x)) /\
  same_rest (normalized I x) (fromString I x).
Proof.
  intros E. unfold normalized.
  destruct (addSlash_over_spec _ E) as (E' & P & Pe & S & R).
  destruct (useHttps_over_spec _ E') as (P' & S' & R').
  rewrite P', S', S. repeat split; try assumption.
  all: destruct R as (R1 & R2 & R3 & R4 & R5), R' as (Q1 & Q2 & Q3 & Q4 & Q5); congruence.
Qed.


Lemma scheme_not_http (s : string) :
  (if String.eqb s "http" then "https" else s) <> "http".
Proof. destruct (String.eqb_spec s "http"); [discriminate | assumption]. Qed.

(** The two steps change nothing on a URL that is empty, or whose path ends
    with a slash and whose scheme is not [http]. *)
Lemma steps_fixed (w : t I) :
  isEmpty w = true \/ (endsWith "/" (path w) = true /\ scheme w <> "http") ->
  useHttps_over (addSlash_over w) = w.
Proof.
  intros [E|[P S]].
  - unfold addSlash_over. rewrite E. cbn [negb andb]. unfold useHttps_over. now rewrite E.
  - unfold addSlash_over. rewrite P, andb_false_r.
    unfold useHttps_over. destruct (String.eqb_spec (scheme w) "http"); [contradiction|].
    now rewrite andb_false_r.
Qed.

Lemma normalized_fixed x :
  isEmpty (normalized I x) = true \/
  (endsWith "/" (path (normalized I x)) = true /\ scheme (normalized I x) <> "http").
Proof.
  destruct (isEmpty (fromString I x)) eqn:E.
  - left. now rewrite (normalized_empty x E).
  - right. destruct (normalized_spec x E) as (P & _ & S & _).
    split; [exact P|]. rewrite S. apply scheme_not_http.
Qed.

Lemma verifyUrl_over_empty : verifyUrl_over I "" = "".
Proof.
  rewrite verifyUrl_over_steps, normalized_empty by apply (empty_isEmpty I L).
  apply (empty_toString I L).
Qed.

Lemma verifyUrl_over_twice x :
  verifyUrl_over I (verifyUrl_over I x) = verifyUrl_over I x.
Proof.
  rewrite (verifyUrl_over_steps x).
  destruct (reads_back I L x) as [E|(R1 & R2 & R3 & _ & R5)].
  - rewrite E. apply verifyUrl_over_empty.
  - rewrite verifyUrl_over_steps. unfold normalized at 1.
    rewrite steps_fixed; [exact R5|].
    rewrite R1, R2, R3. apply normalized_fixed.
Qed.

(** What is read back from the text [verifyUrl] returns. *)
Lemma verifyUrl_over_reads x :
  verifyUrl_over I x = "" \/
  same_url (fromString I (verifyUrl_over I x)) (normalized I x).
Proof. rewrite verifyUrl_over_steps. apply (reads_back I L). Qed.

Lemma verifyUrl_over_stored x : stored_url I x (verifyUrl_over I x).
Proof.
  split; [reflexivity|].
  destruct (verifyUrl_over_reads x) as [E|(_ & R2 & R3 & _)]; [now left|].
  destruct (String.eqb_spec x "") as [->|N]; [left; apply verifyUrl_over_empty|].
  right. destruct (normalized_spec x (text_isEmpty I L x N)) as (P & _ & S & _).
  rewrite R2, R3. now split.
Qed.

End Laws.

End VerifyUrlFacts.

(** ** The page *)

Module PageFacts.
Import QUrl QUrlForm QUrlFacts.
Local Open Scope string_scope.

Ltac lookup_set :=
  unfold applySettings, Settings.set;
  repeat (rewrite lookup_insert_ne by discriminate);
  try apply lookup_insert_eq.

Section Apply.
Variables (p : APIPage) (s : Settings.t).

Lemma applySettings_pasteType :
  applySettings p s !! "PastebinType" =
  Some (QInt (QVariant_toInt (QComboBox.currentData (pasteTypeComboBox p)))).
Proof. lookup_set. Qed.

Lemma applySettings_baseURL :
  applySettings p s !! "PastebinCustomAPIBase" = Some (QStr (baseURLEntry p)).
Proof. lookup_set. Qed.

Lemma applySettings_msa :
  applySettings p s !! "MSAClientIDOverride" = Some (QStr (msaClientID p)).
Proof. lookup_set. Qed.

Lemma applySettings_meta :
  applySettings p s !! "MetaURLOverride" = Some (QStr (verifyUrl (metaURL p))).
Proof. lookup_set. Qed.

Lemma applySettings_resource :
  applySettings p s !! "MinecraftResourceURLOverride" =
  Some (QStr (verifyUrl (resourceURL p))).
Proof. lookup_set. Qed.

Lemma applySettings_libraries :
  applySettings p s !! "MinecraftLibrariesURLOverride" =
  Some (QStr (verifyUrl (librariesURL p))).
Proof. lookup_set. Qed.

Lemma applySettings_flame :
  applySettings p s !! "FlameKeyOverride" = Some (QStr (flameKey p)).
Proof. lookup_set. Qed.

Lemma applySettings_modrinth :
  applySettings p s !! "ModrinthToken" = Some (QStr (modrinthToken p)).
Proof. lookup_set. Qed.

Lemma applySettings_userAgent :
  applySettings p s !! "UserAgentOverride" = Some (QStr (userAgentLineEdit p)).
Proof. lookup_set. Qed.

Lemma applySettings_other k :
  ~ In k settingKeys -> applySettings p s !! k = s !! k.
Proof.
  intros H. unfold applySettings, Settings.set.
  repeat (rewrite lookup_insert_ne by (intros <-; apply H; simpl; tauto)).
  reflexivity.
Qed.

End Apply.

(** The same for [applySettings_over]. *)
Ltac lookup_set_over :=
  unfold applySettings_over, Settings.set;
  repeat (rewrite lookup_insert_ne by discriminate);
  try apply lookup_insert_eq.

Section ApplyOver.
Variables (I : QUrlApi.ops) (p : APIPage) (s : Settings.t).

Lemma applySettings_over_pasteType :
  applySettings_over I p s !! "PastebinType" =
  Some (QInt (QVariant_toInt (QComboBox.currentData (pasteTypeComboBox p)))).
Proof. lookup_set_over. Qed.

Lemma applySettings_over_baseURL :
  applySettings_over I p s !! "PastebinCustomAPIBase" = Some (QStr (baseURLEntry p)).
Proof. lookup_set_over. Qed.

Lemma applySettings_over_msa :
  applySettings_over I p s !! "MSAClientIDOverride" = Some (QStr (msaClientID p)).
Proof. lookup_set_over. Qed.

Lemma applySettings_over_meta :
  applySettings_over I p s !! "MetaURLOverride" =
  Some (QStr (verifyUrl_over I (metaURL p))).
Proof. lookup_set_over. Qed.

Lemma applySettings_over_resource :
  applySettings_over I p s !! "MinecraftResourceURLOverride" =
  Some (QStr (verifyUrl_over I (resourceURL p))).
Proof. lookup_set_over. Qed.

Lemma applySettings_over_libraries :
  applySettings_over I p s !! "MinecraftLibrariesURLOverride" =
  Some (QStr (verifyUrl_over I (librariesURL p))).
Proof. lookup_set_over. Qed.

Lemma applySettings_over_flame :
  applySettings_over I p s !! "FlameKeyOverride" = Some (QStr (flameKey p)).
Proof. lookup_set_over. Qed.

Lemma applySettings_over_modrinth :
  applySettings_over I p s !! "ModrinthToken" = Some (QStr (modrinthToken p)).
Proof. lookup_set_over. Qed.

Lemma applySettings_over_userAgent :
  applySettings_over I p s !! "UserAgentOverride" = Some (QStr (userAgentLineEdit p)).
Proof. lookup_set_over. Qed.

Lemma applySettings_over_other k :
  ~ In k settingKeys -> applySettings_over I p s !! k = s !! k.
Proof.
  intros H. unfold applySettings_over, Settings.set.
  repeat (rewrite lookup_insert_ne by (intros <-; apply H; simpl; tauto)).
  reflexivity.
Qed.

Lemma applySettings_over_url k :
  In k urlKeys ->
  applySettings_over I p s !! k = Some (QStr (verifyUrl_over I (urlField k p))).
Proof.
  intros [<-|[<-|[<-|[]]]]; unfold urlField; cbn [String.eqb Ascii.eqb Bool.eqb];
    [apply applySettings_over_meta | apply applySettings_over_resource
    | apply applySettings_over_libraries].
Qed.

End ApplyOver.

(** [verifyUrl] and [applySettings] are [verifyUrl_over] and
    [applySettings_over] with [QUrl_model]. *)
Lemma verifyUrl_model x : verifyUrl_over QUrl_model x = verifyUrl x.
Proof. reflexivity. Qed.

Lemma applySettings_model p s : applySettings_over QUrl_model p s = applySettings p s.
Proof. reflexivity. Qed.

Lemma get_lookup k (s : Settings.t) v : s !! k = Some v -> Settings.get k s = v.
Proof. intros H. unfold Settings.get. now rewrite H. Qed.

Lemma loadSettings_urls s p :
  metaURL (loadSettings s p) = QVariant_toString (Settings.get "MetaURLOverride" s) /\
  resourceURL (loadSettings s p) =
    QVariant_toString (Settings.get "MinecraftResourceURLOverride" s) /\
  librariesURL (loadSettings s p) =
    QVariant_toString (Settings.get "MinecraftLibrariesURLOverride" s).
Proof.
  unfold loadSettings.
  destruct (if (_ =? -1)%Z then _ else _) as [i p']. cbn. tauto.
Qed.

Lemma loadSettings_urlField s p k :
  In k urlKeys -> urlField k (loadSettings s p) = QVariant_toString (Settings.get k s).
Proof.
  destruct (loadSettings_urls s p) as (H1 & H2 & H3).
  intros [<-|[<-|[<-|[]]]]; unfold urlField; cbn [String.eqb Ascii.eqb Bool.eqb];
    assumption.
Qed.

(** ** loadSettings *)

Lemma find_absent k l i : ~ In k l -> QComboBox.find k l i = (-1)%Z.
Proof.
  revert i. induction l as [|x r IH]; intros i H; [reflexivity|].
  cbn [QComboBox.find]. destruct (Z.eqb_spec x k) as [->|N].
  - exfalso. apply H. now left.
  - apply IH. intros K. apply H. now right.
Qed.

Lemma updateBaseURLNote_fields i p : fields (updateBaseURLNote i p) = fields p.
Proof.
  unfold updateBaseURLNote.
  destruct (_ =? _)%Z; [reflexivity|]. now destruct (negb _).
Qed.

Lemma setPasteTypeIndex_fields i p :
  fields (setPasteTypeIndex i p) =
  mkFields (QComboBox.currentData (QComboBox.setCurrentIndex i (pasteTypeComboBox p)))
           (baseURLEntry p) (msaClientID p) (metaURL p) (resourceURL p)
           (librariesURL p) (flameKey p) (modrinthToken p) (userAgentLineEdit p).
Proof.
  unfold setPasteTypeIndex. destruct (_ =? _)%Z; [reflexivity|].
  now rewrite updateBaseURLNote_fields.
Qed.

Lemma setPasteTypeIndex_box i p :
  pasteTypeComboBox (setPasteTypeIndex i p) =
    QComboBox.setCurrentIndex i (pasteTypeComboBox p) /\
  baseURLEntry (setPasteTypeIndex i p) = baseURLEntry p.
Proof.
  unfold setPasteTypeIndex. destruct (_ =? _)%Z; [now split|].
  unfold updateBaseURLNote. destruct (_ =? _)%Z; [now split|].
  now destruct (negb _).
Qed.

(** The form after [loadSettings]. *)
Lemma loadSettings_fields s p :
  let box := pasteTypeComboBox p in
  let found :=
    QComboBox.findData (QVariant_toInt (Settings.get "PastebinType" s)) box in
  fields (loadSettings s p) =
  mkFields
    (QComboBox.currentData
       (QComboBox.setCurrentIndex
          (if (found =? -1)%Z
           then QComboBox.findData (PasteUpload.value PasteUpload.Mclogs) box
           else found) box))
    (if (found =? -1)%Z then ""
     else QVariant_toString (Settings.get "PastebinCustomAPIBase" s))
    (QVariant_toString (Settings.get "MSAClientIDOverride" s))
    (QVariant_toString (Settings.get "MetaURLOverride" s))
    (QVariant_toString (Settings.get "MinecraftResourceURLOverride" s))
    (QVariant_toString (Settings.get "MinecraftLibrariesURLOverride" s))
    (QVariant_toString (Settings.get "FlameKeyOverride" s))
    (QVariant_toString (Settings.get "ModrinthToken" s))
    (QVariant_toString (Settings.get "UserAgentOverride" s)).
Proof.
  cbv zeta. unfold loadSettings. cbn [set_baseURLEntry pasteTypeComboBox].
  destruct (_ =? -1)%Z; unfold fields;
    cbn [pasteTypeComboBox baseURLEntry msaClientID metaURL resourceURL
         librariesURL flameKey modrinthToken userAgentLineEdit];
    match goal with
    | |- context [setPasteTypeIndex ?i ?q] =>
        destruct (setPasteTypeIndex_box i q) as [-> ->]
    end; reflexivity.
Qed.

(** ** The refresh control *)

Lemma click_idle w :
  control w = Idle ->
  control (step Clicked w) = InFlight /\
  Property.started (property (step Clicked w)) = S (Property.started (property w)) /\
  Property.unresolved (property (step Clicked w)) = S (Property.unresolved (property w)) /\
  fields (page (step Clicked w)) = fields (page w) /\
  settings (step Clicked w) = settings w.
Proof.
  unfold control, step, on_applyPropertiesBtn_clicked.
  destruct (applyPropertiesBtn_enabled (page w)); [|discriminate].
  intros _. cbn. tauto.
Qed.

Lemma click_in_flight w : control w = InFlight -> step Clicked w = w.
Proof.
  unfold control, step, on_applyPropertiesBtn_clicked.
  now destruct (applyPropertiesBtn_enabled (page w)).
Qed.

Lemma set_button_loadSettings_enabled s p c :
  applyPropertiesBtn_enabled (set_button true c (loadSettings s p)) = true.
Proof. reflexivity. Qed.

Lemma succeeded_in_flight w succeed s' :
  consistent w -> control w = InFlight ->
  control (step (Succeeded succeed s') w) = Idle /\
  consistent (step (Succeeded succeed s') w) /\
  dialogs (step (Succeeded succeed s') w) = (dialogs w ++ [Information succeed])%list.
Proof.
  unfold consistent. intros C I. rewrite I in C.
  unfold step. rewrite C. unfold consistent, control, succeededApplyProperties.
  cbn. rewrite C. tauto.
Qed.

Lemma failed_in_flight w reasons :
  consistent w -> control w = InFlight ->
  control (step (Failed reasons) w) = Idle /\
  consistent (step (Failed reasons) w) /\
  dialogs (step (Failed reasons) w) = (dialogs w ++ [Warning reasons])%list.
Proof.
  unfold consistent. intros C I. rewrite I in C.
  unfold step. rewrite C. unfold consistent, control, failedApplyProperties.
  cbn. rewrite C. tauto.
Qed.

Lemma step_consistent e w : consistent w -> consistent (step e w).
Proof.
  intros C. destruct e as [| |succeed s'|reasons].
  - destruct (control w) eqn:I.
    + destruct (click_idle w I) as (I' & _ & U & _).
      unfold consistent in *. now rewrite I', U, C, I.
    + now rewrite click_in_flight.
  - exact C.
  - destruct (control w) eqn:I.
    + pose proof C as C0. unfold consistent in C0. rewrite I in C0.
      unfold step. now rewrite C0.
    + now apply succeeded_in_flight.
  - destruct (control w) eqn:I.
    + pose proof C as C0. unfold consistent in C0. rewrite I in C0.
      unfold step. now rewrite C0.
    + now apply failed_in_flight.
Qed.

Lemma setPasteTypeIndex_button i p :
  applyPropertiesBtn_enabled (setPasteTypeIndex i p) = applyPropertiesBtn_enabled p.
Proof.
  unfold setPasteTypeIndex. destruct (_ =? _)%Z; [reflexivity|].
  unfold updateBaseURLNote. destruct (_ =? _)%Z; [reflexivity|].
  now destruct (negb _).
Qed.

Lemma loadSettings_button s p :
  applyPropertiesBtn_enabled (loadSettings s p) = applyPropertiesBtn_enabled p.
Proof.
  unfold loadSettings. cbn [set_baseURLEntry pasteTypeComboBox].
  destruct (_ =? -1)%Z; cbn [applyPropertiesBtn_enabled];
    now rewrite setPasteTypeIndex_button.
Qed.

Lemma init_consistent s : consistent (init s).
Proof.
  unfold consistent, control, init, APIPage_new. cbn [page property].
  unfold resetBaseURLNote. cbn [applyPropertiesBtn_enabled].
  now rewrite loadSettings_button.
Qed.

Lemma run_consistent es w : consistent w -> consistent (run es w).
Proof.
  revert w. induction es as [|e es IH]; intros w C; [exact C|].
  apply IH, step_consistent, C.
Qed.

Lemma outcome_in_flight w o :
  consistent w -> control w = InFlight -> is_outcome o = true ->
  control (step o w) = Idle /\ consistent (step o w) /\
  length (dialogs (step o w)) = S (length (dialogs w)).
Proof.
  intros C I O. destruct o as [| |succeed s'|reasons]; try discriminate O.
  - destruct (succeeded_in_flight w succeed s' C I) as (H1 & H2 & H3).
    rewrite H3, length_app. cbn. split; [exact H1 | split; [exact H2 | lia]].
  - destruct (failed_in_flight w reasons C I) as (H1 & H2 & H3).
    rewrite H3, length_app. cbn. split; [exact H1 | split; [exact H2 | lia]].
Qed.

Lemma outcome_idle w o :
  consistent w -> control w = Idle -> is_outcome o = true -> step o w = w.
Proof.
  unfold consistent. intros C I O. rewrite I in C.
  destruct o; try discriminate O; unfold step; now rewrite C.
Qed.


End PageFacts.

Local Open Scope string_scope.

(** ** verifyUrl on some texts *)

Example verifyUrl_empty : verifyUrl "" = "".
Proof. reflexivity. Qed.

Example verifyUrl_normalized : verifyUrl "https://example.com/api/" = "https://example.com/api/".
Proof. reflexivity. Qed.

Example verifyUrl_port : verifyUrl "http://localhost:8080/meta" = "https://localhost:8080/meta/".
Proof. reflexivity. Qed.

Example verifyUrl_fragment : verifyUrl "//h:80/x#f" = "//h:80/x/#f".
Proof. reflexivity. Qed.

Example verifyUrl_local_file : verifyUrl "file:/tmp" = "file:///tmp/".
Proof. reflexivity. Qed.

Example verifyUrl_colon_path : verifyUrl "1:2" = "".
Proof. reflexivity. Qed.

(** * The properties of the specification *)

Import QUrlFacts VerifyUrlFacts PageFacts.

(** C1. [verifyUrl] is idempotent: with every QUrl that keeps the laws, and
    for every text [x], [verifyUrl (verifyUrl x)] is [verifyUrl x].  The URL
    [verifyUrl] has built is empty, or its path ends with a slash and its
    scheme is not [http]; it is written as the empty text, which is returned
    as it is, or as a text that is read back as the same URL, on which
    neither step acts. *)
Theorem verifyUrl_idempotent (I : QUrlApi.ops) (L : QUrl_laws I) (x : string) :
  verifyUrl_over I (verifyUrl_over I x) = verifyUrl_over I x.
Proof.
  rewrite (verifyUrl_over_steps x).
  destruct (reads_back I L x) as [E|(R1 & R2 & R3 & _ & R5)].
  - (* nothing was written *)
    rewrite E. now apply verifyUrl_over_empty.
  - (* the text is read back as the URL that was built *)
    rewrite verifyUrl_over_steps. unfold normalized at 1.
    rewrite steps_fixed; [exact R5|].
    rewrite R1, R2, R3. now apply normalized_fixed.
Qed.

Lemma verifyUrl_idempotent_witness :
  QUrl_laws QUrl_model /\
  verifyUrl (verifyUrl "http://example.com/api") = verifyUrl "http://example.com/api".
Proof.
  split; [exact QUrl_model_laws|].
  exact (verifyUrl_idempotent QUrl_model QUrl_model_laws "http://example.com/api").
Defined.

(** C2, as amended.  [verifyUrl] maps the empty text to the empty text.  For
    a text that is not empty it builds a URL whose path ends with a slash (the
    path of the input, with a slash appended when it had none) and whose scheme
    is [https] when the scheme of the input is [http] and the scheme of the
    input otherwise, and returns that URL as QUrl writes it: the empty text
    when QUrl does not write the URL, and otherwise a text that is read back
    with that path and that scheme.  In particular [http://example.com]
    becomes [https://example.com/]. *)
Theorem verifyUrl_contract (I : QUrlApi.ops) (L : QUrl_laws I) :
  verifyUrl_over I "" = "" /\
  (forall x : string, x <> "" ->
     let u := QUrlApi.fromString I x in
     let v := normalized I x in
     verifyUrl_over I x = QUrlApi.toString v /\
     endsWith "/" (QUrlApi.path v) = true /\
     QUrlApi.path v =
       (if endsWith "/" (QUrlApi.path u) then QUrlApi.path u
        else QUrlApi.path u ++ "/") /\
     QUrlApi.scheme v =
       (if String.eqb (QUrlApi.scheme u) "http" then "https" else QUrlApi.scheme u) /\
     (verifyUrl_over I x = "" \/
      let w := QUrlApi.fromString I (verifyUrl_over I x) in
      QUrlApi.path w = QUrlApi.path v /\ QUrlApi.scheme w = QUrlApi.scheme v)) /\
  verifyUrl "http://example.com" = "https://example.com/".
Proof.
  split; [now apply verifyUrl_over_empty|]. split; [|reflexivity].
  intros x N. cbv zeta.
  destruct (normalized_spec L x (text_isEmpty I L x N)) as (P & Pe & S & _).
  split; [reflexivity|]. split; [exact P|]. split; [exact Pe|]. split; [exact S|].
  destruct (verifyUrl_over_reads L x) as [E|(_ & R2 & R3 & _)]; [now left | right].
  now split.
Qed.

Lemma verifyUrl_contract_witness :
  QUrl_laws QUrl_model /\
  endsWith "/" (QUrl.path (QUrl.fromString (verifyUrl "http://example.com/api"))) = true /\
  QUrl.scheme (QUrl.fromString (verifyUrl "http://example.com/api")) = "https".
Proof.
  split; [exact QUrl_model_laws|].
  destruct (verifyUrl_contract QUrl_model QUrl_model_laws) as (_ & H & _).
  destruct (H "http://example.com/api") as (_ & H1 & _ & H3 & [H4|[H5 H6]]);
    [discriminate | discriminate H4 |].
  cbv zeta in H5, H6. split.
  - change (endsWith "/" (QUrlApi.path
             (QUrlApi.fromString QUrl_model
                (verifyUrl_over QUrl_model "http://example.com/api"))) = true).
    rewrite H5. exact H1.
  - change (QUrlApi.scheme
             (QUrlApi.fromString QUrl_model
                (verifyUrl_over QUrl_model "http://example.com/api")) = "https").
    rewrite H6. exact H3.
Defined.

(** C2 as stated fails on a text that QUrl reads as a URL it does not hold
    valid: [1:2/] has no scheme, and its path has a colon in front of the
    first slash.  The text is not empty, and the result is the empty text,
    whose path does not end with a slash. *)
Lemma verifyUrl_invalid_url :
  let x := "1:2/" in
  x <> "" /\
  QUrl.isEmpty (QUrl.fromString x) = false /\
  verifyUrl x = "" /\
  endsWith "/" (QUrl.path (QUrl.fromString (verifyUrl x))) = false.
Proof. cbv zeta. repeat split; try reflexivity; discriminate. Qed.

(** C3, as amended.  For a text that is not empty and whose path lacks the
    trailing slash, [verifyUrl] appends exactly one slash to the path and
    changes no other component of the URL but the scheme, which becomes
    [https] where it was [http]: authority, query and fragment are those of
    the input.  What it returns is that URL as QUrl writes it, not the text
    of the input with a slash put in. *)
Theorem verifyUrl_inserts_slash (I : QUrlApi.ops) (L : QUrl_laws I) (x : string) :
  x <> "" ->
  endsWith "/" (QUrlApi.path (QUrlApi.fromString I x)) = false ->
  let u := QUrlApi.fromString I x in
  let v := normalized I x in
  verifyUrl_over I x = QUrlApi.toString v /\
  QUrlApi.path v = QUrlApi.path u ++ "/" /\
  QUrlApi.scheme v =
    (if String.eqb (QUrlApi.scheme u) "http" then "https" else QUrlApi.scheme u) /\
  same_rest v u.
Proof.
  intros N P. cbv zeta.
  destruct (normalized_spec L x (text_isEmpty I L x N)) as (_ & Pe & S & R).
  rewrite P in Pe.
  split; [reflexivity|]. split; [exact Pe|]. split; [exact S | exact R].
Qed.

Lemma verifyUrl_inserts_slash_witness :
  let x := "http://example.com/api?x=1" in
  verifyUrl x = "https://example.com/api/?x=1" /\
  QUrl.path (QUrl.fromString x) = "/api" /\
  QUrl.path (useHttps (addSlash (QUrl.fromString x))) = "/api/" /\
  QUrl.scheme (useHttps (addSlash (QUrl.fromString x))) = "https".
Proof.
  cbv zeta.
  destruct (verifyUrl_inserts_slash QUrl_model QUrl_model_laws
              "http://example.com/api?x=1") as (H1 & H2 & H3 & _);
    [discriminate | reflexivity |].
  split; [reflexivity|]. split; [reflexivity|]. split; [exact H2 | exact H3].
Defined.

(** C3 as stated fails on a scheme in upper case: the path of
    [FTP://example.com] lacks the slash, and the result is
    [ftp://example.com/], not [FTP://example.com/]. *)
Lemma verifyUrl_lowers_scheme :
  let x := "FTP://example.com" in
  x <> "" /\
  endsWith "/" (QUrl.path (QUrl.fromString x)) = false /\
  verifyUrl x = "ftp://example.com/" /\
  verifyUrl x <> x ++ "/" /\
  verifyUrl x <>
    string_of_list_ascii
      (rewrite_http (hier (list_ascii_of_string x)) ++
       "/"%char :: afterHier (list_ascii_of_string x)).
Proof. cbv zeta. repeat split; try reflexivity; discriminate. Qed.

(** C4, as amended.  After [applySettings], each of the three URL overrides
    is what [verifyUrl] makes of its field: the empty text, or the text of a
    URL whose path, as QUrl reads it, ends with a slash and whose scheme is
    [https] where the field had [http].  The text itself need not end with a
    slash. *)
Theorem applied_urls_normalized
    (I : QUrlApi.ops) (L : QUrl_laws I) (p : APIPage) (s : Settings.t) :
  let v k := QVariant_toString (Settings.get k (applySettings_over I p s)) in
  stored_url I (metaURL p) (v "MetaURLOverride") /\
  stored_url I (resourceURL p) (v "MinecraftResourceURLOverride") /\
  stored_url I (librariesURL p) (v "MinecraftLibrariesURLOverride").
Proof.
  cbv beta zeta.
  rewrite (get_lookup _ _ _ (applySettings_over_meta I p s)),
    (get_lookup _ _ _ (applySettings_over_resource I p s)),
    (get_lookup _ _ _ (applySettings_over_libraries I p s)).
  cbn [QVariant_toString].
  split; [|split]; apply (verifyUrl_over_stored L).
Qed.

Lemma applied_urls_normalized_witness :
  QUrl_laws QUrl_model /\
  stored_url QUrl_model "http://example.com/api?x=1"
    (QVariant_toString
       (Settings.get "MetaURLOverride"
          (applySettings_over QUrl_model (a_page "http://example.com/api?x=1") ∅))).
Proof.
  split; [exact QUrl_model_laws|].
  apply (applied_urls_normalized QUrl_model QUrl_model_laws
           (a_page "http://example.com/api?x=1") ∅).
Defined.

(** C4 as stated fails on a URL with a query: the override stored for
    [https://example.com/api?x=1] is not empty and does not end with a
    slash. *)
Lemma applied_url_with_query :
  let p := a_page "https://example.com/api?x=1" in
  let v := QVariant_toString (Settings.get "MetaURLOverride" (applySettings p ∅)) in
  v = "https://example.com/api/?x=1" /\ v <> "" /\ endsWith "/" v = false.
Proof. vm_compute. repeat split; discriminate. Qed.



(** C6. [apply] returns [true] for every state of the form.  It stores the
    paste type, the base URL of the paste service, the client ID, the API
    key, the token and the user agent as they are in the form, and the three
    URL overrides as [verifyUrl] returns them. *)
Theorem apply_total_verbatim (p : APIPage) (s : Settings.t) :
  fst (apply p s) = true /\
  let s' := snd (apply p s) in
  s' !! "PastebinType" =
    Some (QInt (QVariant_toInt (QComboBox.currentData (pasteTypeComboBox p)))) /\
  s' !! "PastebinCustomAPIBase" = Some (QStr (baseURLEntry p)) /\
  s' !! "MSAClientIDOverride" = Some (QStr (msaClientID p)) /\
  s' !! "FlameKeyOverride" = Some (QStr (flameKey p)) /\
  s' !! "ModrinthToken" = Some (QStr (modrinthToken p)) /\
  s' !! "UserAgentOverride" = Some (QStr (userAgentLineEdit p)) /\
  s' !! "MetaURLOverride" = Some (QStr (verifyUrl (metaURL p))) /\
  s' !! "MinecraftResourceURLOverride" = Some (QStr (verifyUrl (resourceURL p))) /\
  s' !! "MinecraftLibrariesURLOverride" = Some (QStr (verifyUrl (librariesURL p))).
Proof.
  split; [reflexivity|]. cbn [apply snd].
  repeat split;
    auto using applySettings_pasteType, applySettings_baseURL, applySettings_msa,
      applySettings_flame, applySettings_modrinth, applySettings_userAgent,
      applySettings_meta, applySettings_resource, applySettings_libraries.
Qed.

(** C7. In a store whose three URL overrides are results of [verifyUrl], as
    an earlier [applySettings] leaves them, loading the form and applying it
    again leaves each of the three overrides as it was, with every QUrl that
    keeps the laws. *)
Theorem apply_after_load_fixed
    (I : QUrlApi.ops) (L : QUrl_laws I) (s : Settings.t) (p : APIPage) (k : string) :
  produced I s -> In k urlKeys ->
  applySettings_over I (loadSettings s p) s !! k = s !! k.
Proof.
  intros P K. destruct (P k K) as [x E].
  rewrite (applySettings_over_url I _ _ k K), (loadSettings_urlField s p k K).
  rewrite (get_lookup _ _ _ E), E. cbn [QVariant_toString].
  now rewrite (verifyUrl_over_twice L).
Qed.

Lemma apply_after_load_fixed_witness :
  let s := applySettings_over QUrl_model (a_page "http://example.com") ∅ in
  QUrl_laws QUrl_model /\
  produced QUrl_model s /\
  applySettings_over QUrl_model (loadSettings s (a_page "")) s !! "MetaURLOverride" =
  s !! "MetaURLOverride".
Proof.
  cbv zeta.
  assert (P : produced QUrl_model
                (applySettings_over QUrl_model (a_page "http://example.com") ∅)).
  { intros k K. rewrite (applySettings_over_url _ _ _ k K). eauto. }
  split; [exact QUrl_model_laws|]. split; [exact P|].
  apply (apply_after_load_fixed QUrl_model QUrl_model_laws _ (a_page "")
           "MetaURLOverride" P).
  simpl. tauto.
Defined.

(** C8. The refresh control is idle or in flight.  A click on the idle
    control starts one request and puts it in flight.  A click on the control
    in flight changes nothing: no request is started and the control stays in
    flight.  Success or failure puts the control in flight back to idle, and
    of two notifications that follow a click in flight only the first is
    delivered. *)
Theorem refresh_control_state_machine (w : World) :
  consistent w ->
  (control w = Idle ->
     control (step Clicked w) = InFlight /\
     Property.started (property (step Clicked w)) = S (Property.started (property w)) /\
     consistent (step Clicked w)) /\
  (control w = InFlight ->
     step Clicked w = w /\
     (forall o, is_outcome o = true ->
        control (step o w) = Idle /\ consistent (step o w)) /\
     (forall o1 o2, is_outcome o1 = true -> is_outcome o2 = true ->
        length (dialogs (run [Clicked; o1; o2] w)) = S (length (dialogs w)))).
Proof.
  intros C. split; intros I.
  - destruct (click_idle w I) as (H1 & H2 & _). repeat split; try assumption.
    now apply step_consistent.
  - split; [now apply click_in_flight|]. split.
    + intros o O. destruct (outcome_in_flight w o C I O) as (H1 & H2 & _). now split.
    + intros o1 o2 O1 O2. unfold run. cbn [fold_left].
      rewrite (click_in_flight w I).
      destruct (outcome_in_flight w o1 C I O1) as (H1 & H2 & H3).
      now rewrite (outcome_idle _ o2 H2 H1 O2).
Qed.

Lemma refresh_control_state_machine_witness :
  let w := step Clicked (init ∅) in
  control w = InFlight /\ step Clicked w = w /\
  control (step (Failed "network error") w) = Idle.
Proof.
  cbv zeta.
  assert (C : consistent (step Clicked (init ∅))) by reflexivity.
  assert (I : control (step Clicked (init ∅)) = InFlight) by reflexivity.
  destruct (refresh_control_state_machine _ C) as [_ H].
  destruct (H I) as (H1 & H2 & _).
  split; [exact I|]. split; [exact H1|]. now apply H2.
Defined.

(** C9. The handler of a failure leaves the fields of the form and the
    settings as they are and enables the button again; the handler of a
    success loads the form from the settings and enables the button.  The
    form a failure leaves can differ from the one the settings would give. *)
Theorem failure_leaves_form_unchanged :
  (forall w reasons,
     fields (page (failedApplyProperties reasons w)) = fields (page w) /\
     settings (failedApplyProperties reasons w) = settings w /\
     applyPropertiesBtn_enabled (page (failedApplyProperties reasons w)) = true /\
     fields (page (step (Failed reasons) w)) = fields (page w)) /\
  (forall w succeed,
     fields (page (succeededApplyProperties succeed w)) =
       fields (loadSettings (settings w) (page w)) /\
     applyPropertiesBtn_enabled (page (succeededApplyProperties succeed w)) = true) /\
  (exists w reasons,
     fields (page (failedApplyProperties reasons w)) <>
     fields (loadSettings (settings w) (page w))).
Proof.
  split; [|split].
  - intros w reasons. repeat split.
    unfold step. now destruct (Property.unresolved (property w)).
  - intros w succeed. now split.
  - exists (mkWorld (a_page "http://example.com") ∅ Property.idle []), "network error".
    vm_compute. discriminate.
Qed.




(** * Further properties *)

Module MoreUrlFacts.
Import QUrl QUrlForm QUrlFacts PageFacts.
Local Open Scope char_scope.
Local Open Scope list_scope.

Lemma scheme_list u s : scheme u = s <-> scheme_ u = list_ascii_of_string s.
Proof.
  unfold scheme. split; intros H.
  - rewrite <- H. now rewrite list_ascii_of_string_of_list_ascii.
  - rewrite H. apply string_of_list_ascii_of_string.
Qed.

Lemma break_prefix c pre r :
  ~ In c pre -> break c (pre ++ r) = (pre ++ fst (break c r), snd (break c r)).
Proof.
  induction pre as [|x pre IH]; intros H.
  - cbn [app]. now destruct (break c r).
  - cbn [app break]. destruct (Ascii.eqb_spec x c) as [->|N].
    + exfalso. apply H. now left.
    + rewrite IH by (intros K; apply H; now right). reflexivity.
Qed.

(** A text that opens with a scheme and [//] has that scheme and an
    authority. *)
Lemma parse_scheme_authority sch r :
  valid_scheme sch = true ->
  scheme_ (parse (sch ++ ":" :: "/" :: "/" :: r)) = map to_lower sch /\
  exists a, authority_ (parse (sch ++ ":" :: "/" :: "/" :: r)) = Some a.
Proof.
  intros V.
  assert (P : forall d, delimiter d = true -> d <> ":" -> d <> "/" ->
              ~ In d (sch ++ [":"; "/"; "/"])).
  { intros d D N1 N2. rewrite not_in_app. split; [now apply valid_scheme_no|].
    cbn. intuition congruence. }
  replace (sch ++ ":" :: "/" :: "/" :: r)
    with ((sch ++ [":"; "/"; "/"]) ++ r) by now rewrite <- app_assoc.
  unfold parse.
  rewrite (break_prefix "#") by (apply P; [reflexivity | discriminate | discriminate]).
  cbv beta iota.
  rewrite (break_prefix "?") by (apply P; [reflexivity | discriminate | discriminate]).
  cbv beta iota. rewrite <- app_assoc. cbn [app].
  rewrite break_here by (apply valid_scheme_no; [exact V | reflexivity]).
  rewrite V. unfold split_hier. rewrite !Ascii.eqb_refl. cbn [andb scheme_ authority_].
  split; [reflexivity | eauto].
Qed.

Lemma one_or_more_nonempty p l : one_or_more p l = true -> l <> [].
Proof. destruct l; [discriminate | discriminate]. Qed.

Lemma validUrlRegExp_inv x :
  validUrlRegExp x = true ->
  exists r, r <> [] /\
    (list_ascii_of_string x = (list_ascii_of_string "https://" ++ r) \/
     list_ascii_of_string x = (list_ascii_of_string "http://" ++ r)).
Proof.
  unfold validUrlRegExp.
  destruct (strip_prefix (list_ascii_of_string "https://") _) as [r|] eqn:S1.
  - intros H. exists r. split; [now apply (one_or_more_nonempty dot)|].
    left. now apply strip_prefix_inv.
  - destruct (strip_prefix (list_ascii_of_string "http://") _) as [r|] eqn:S2;
      [|discriminate].
    intros H. exists r. split; [now apply (one_or_more_nonempty dot)|].
    right. now apply strip_prefix_inv.
Qed.

Lemma validUrlRegExp_text x :
  validUrlRegExp x = true ->
  exists r : string, x = ("https://" ++ r)%string \/ x = ("http://" ++ r)%string.
Proof.
  intros H. destruct (validUrlRegExp_inv x H) as (r & _ & E).
  exists (string_of_list_ascii r).
  rewrite <- (string_of_list_ascii_of_string x).
  destruct E as [-> | ->]; [left | right]; reflexivity.
Qed.

(** The implementation reads the scheme of a text that starts with
    [http://] or [https://]. *)
Lemma fromString_http (r : string) :
  QUrlApi.scheme (QUrlApi.fromString QUrl_model ("http://" ++ r)) = "http"%string /\
  QUrlApi.scheme (QUrlApi.fromString QUrl_model ("https://" ++ r)) = "https"%string.
Proof.
  cbn [QUrlApi.scheme QUrlApi.fromString QUrl_model]. unfold fromString.
  split; apply scheme_list.
  - exact (proj1 (parse_scheme_authority (list_ascii_of_string "http")
                    (list_ascii_of_string r) eq_refl)).
  - exact (proj1 (parse_scheme_authority (list_ascii_of_string "https")
                    (list_ascii_of_string r) eq_refl)).
Qed.

End MoreUrlFacts.

Module MorePageFacts.
Import QUrlFacts PageFacts.

(** *** The combo box *)

Lemma find_present d l i :
  In d l ->
  exists n, QComboBox.find d l i = (i + Z.of_nat n)%Z /\ nth_error l n = Some d.
Proof.
  revert i. induction l as [|x r IH]; intros i H; [destruct H|].
  cbn [QComboBox.find]. destruct (Z.eqb_spec x d) as [->|N].
  - exists 0%nat. split; [lia | reflexivity].
  - destruct H as [H|H]; [congruence|].
    destruct (IH (i + 1)%Z H) as (n & E & Hn).
    exists (S n). split; [lia | exact Hn].
Qed.

Lemma nth_error_length {A} (l : list A) n x : nth_error l n = Some x -> (n < length l)%nat.
Proof. intros H. apply nth_error_Some. congruence. Qed.

(** The item found by its data becomes the current one. *)
Lemma select_found d box :
  In d (QComboBox.itemData_ box) ->
  QComboBox.findData d box <> (-1)%Z /\
  QComboBox.currentData (QComboBox.setCurrentIndex (QComboBox.findData d box) box) = QInt d /\
  has_selection (QComboBox.setCurrentIndex (QComboBox.findData d box) box).
Proof.
  intros H. unfold QComboBox.findData.
  destruct (find_present d _ 0%Z H) as (n & -> & Hn).
  pose proof (nth_error_length _ _ _ Hn) as L.
  assert (R : ((0 <=? 0 + Z.of_nat n) && (0 + Z.of_nat n <? QComboBox.count box))%Z = true).
  { unfold QComboBox.count. apply andb_true_intro. split; [apply Z.leb_le | apply Z.ltb_lt]; lia. }
  split; [lia|]. split.
  - unfold QComboBox.currentData, QComboBox.setCurrentIndex, QComboBox.itemData.
    cbn [QComboBox.currentIndex QComboBox.itemData_]. rewrite R.
    destruct (Z.ltb_spec (0 + Z.of_nat n) 0); [lia|].
    replace (Z.to_nat (0 + Z.of_nat n)) with n by lia. now rewrite Hn.
  - unfold has_selection, QComboBox.setCurrentIndex, QComboBox.count in *.
    cbn [QComboBox.currentIndex QComboBox.itemData_]. rewrite R. lia.
Qed.

Lemma has_selection_data box :
  has_selection box ->
  exists d, QComboBox.currentData box = QInt d /\ In d (QComboBox.itemData_ box).
Proof.
  unfold has_selection, QComboBox.currentData, QComboBox.itemData, QComboBox.count.
  intros [H1 H2]. destruct (Z.ltb_spec (QComboBox.currentIndex box) 0); [lia|].
  destruct (nth_error (QComboBox.itemData_ box) (Z.to_nat (QComboBox.currentIndex box)))
    as [d|] eqn:E.
  - exists d. split; [reflexivity | now apply nth_error_In in E].
  - apply nth_error_None in E. lia.
Qed.

Lemma setCurrentIndex_twice i box :
  QComboBox.setCurrentIndex i (QComboBox.setCurrentIndex i box) =
  QComboBox.setCurrentIndex i box.
Proof. reflexivity. Qed.

(** *** loadSettings *)

Lemma loadSettings_items s p :
  QComboBox.itemData_ (pasteTypeComboBox (loadSettings s p)) =
  QComboBox.itemData_ (pasteTypeComboBox p).
Proof.
  unfold loadSettings. cbn [set_baseURLEntry pasteTypeComboBox].
  destruct (_ =? -1)%Z; cbn [pasteTypeComboBox];
    match goal with
    | |- context [setPasteTypeIndex ?i ?q] =>
        destruct (setPasteTypeIndex_box i q) as [-> _]
    end; reflexivity.
Qed.

Lemma setPasteTypeIndex_rest i p :
  applyPropertiesBtn_text (setPasteTypeIndex i p) = applyPropertiesBtn_text p /\
  baseURLPasteType (setPasteTypeIndex i p) = baseURLPasteType p.
Proof.
  unfold setPasteTypeIndex. destruct (_ =? _)%Z; [now split|].
  unfold updateBaseURLNote. destruct (_ =? _)%Z; [now split|].
  now destruct (negb _).
Qed.

Lemma loadSettings_rest s p :
  applyPropertiesBtn_text (loadSettings s p) = applyPropertiesBtn_text p /\
  baseURLPasteType (loadSettings s p) = baseURLPasteType p.
Proof.
  unfold loadSettings. cbn [set_baseURLEntry pasteTypeComboBox].
  destruct (_ =? -1)%Z; cbn [applyPropertiesBtn_text baseURLPasteType];
    match goal with
    | |- context [setPasteTypeIndex ?i ?q] =>
        destruct (setPasteTypeIndex_rest i q) as [-> ->]
    end; now split.
Qed.


Lemma loadSettings_box s p :
  pasteTypeComboBox (loadSettings s p) =
  QComboBox.setCurrentIndex (pasteTypeIndex s (pasteTypeComboBox p)) (pasteTypeComboBox p).
Proof.
  unfold loadSettings, pasteTypeIndex. cbn [set_baseURLEntry pasteTypeComboBox].
  destruct (_ =? -1)%Z; cbn [pasteTypeComboBox];
    match goal with
    | |- context [setPasteTypeIndex ?i ?q] =>
        destruct (setPasteTypeIndex_box i q) as [-> _]
    end; reflexivity.
Qed.

(** *** Load after apply, apply after load *)

Lemma get_applySettings p s :
  Settings.get "PastebinType" (applySettings p s) =
    QInt (QVariant_toInt (QComboBox.currentData (pasteTypeComboBox p))) /\
  Settings.get "PastebinCustomAPIBase" (applySettings p s) = QStr (baseURLEntry p) /\
  Settings.get "MSAClientIDOverride" (applySettings p s) = QStr (msaClientID p) /\
  Settings.get "MetaURLOverride" (applySettings p s) = QStr (verifyUrl (metaURL p)) /\
  Settings.get "MinecraftResourceURLOverride" (applySettings p s) =
    QStr (verifyUrl (resourceURL p)) /\
  Settings.get "MinecraftLibrariesURLOverride" (applySettings p s) =
    QStr (verifyUrl (librariesURL p)) /\
  Settings.get "FlameKeyOverride" (applySettings p s) = QStr (flameKey p) /\
  Settings.get "ModrinthToken" (applySettings p s) = QStr (modrinthToken p) /\
  Settings.get "UserAgentOverride" (applySettings p s) = QStr (userAgentLineEdit p).
Proof.
  repeat split; apply get_lookup;
    auto using applySettings_pasteType, applySettings_baseURL, applySettings_msa,
      applySettings_flame, applySettings_modrinth, applySettings_userAgent,
      applySettings_meta, applySettings_resource, applySettings_libraries.
Qed.

Lemma load_after_apply p q s :
  has_selection (pasteTypeComboBox p) ->
  QComboBox.itemData_ (pasteTypeComboBox q) = QComboBox.itemData_ (pasteTypeComboBox p) ->
  fields (loadSettings (applySettings p s) q) =
  mkFields (f_pasteType (fields p)) (baseURLEntry p) (msaClientID p)
           (verifyUrl (metaURL p)) (verifyUrl (resourceURL p))
           (verifyUrl (librariesURL p)) (flameKey p) (modrinthToken p)
           (userAgentLineEdit p).
Proof.
  intros S I. destruct (has_selection_data _ S) as (d & D & K).
  destruct (get_applySettings p s) as (G1 & G2 & G3 & G4 & G5 & G6 & G7 & G8 & G9).
  rewrite loadSettings_fields. cbv zeta.
  rewrite G1, G2, G3, G4, G5, G6, G7, G8, G9. cbn [QVariant_toString QVariant_toInt].
  cbn [fields f_pasteType]. rewrite D. cbn [QVariant_toInt].
  rewrite <- I in K. destruct (select_found d _ K) as (F & C & _).
  apply Z.eqb_neq in F. rewrite F, C. reflexivity.
Qed.

Lemma load_after_apply_over (I : QUrlApi.ops) p q s :
  has_selection (pasteTypeComboBox p) ->
  QComboBox.itemData_ (pasteTypeComboBox q) = QComboBox.itemData_ (pasteTypeComboBox p) ->
  fields (loadSettings (applySettings_over I p s) q) =
  mkFields (f_pasteType (fields p)) (baseURLEntry p) (msaClientID p)
           (verifyUrl_over I (metaURL p)) (verifyUrl_over I (resourceURL p))
           (verifyUrl_over I (librariesURL p)) (flameKey p) (modrinthToken p)
           (userAgentLineEdit p).
Proof.
  intros S E. destruct (has_selection_data _ S) as (d & D & K).
  rewrite loadSettings_fields. cbv zeta.
  rewrite (get_lookup _ _ _ (applySettings_over_pasteType I p s)),
    (get_lookup _ _ _ (applySettings_over_baseURL I p s)),
    (get_lookup _ _ _ (applySettings_over_msa I p s)),
    (get_lookup _ _ _ (applySettings_over_meta I p s)),
    (get_lookup _ _ _ (applySettings_over_resource I p s)),
    (get_lookup _ _ _ (applySettings_over_libraries I p s)),
    (get_lookup _ _ _ (applySettings_over_flame I p s)),
    (get_lookup _ _ _ (applySettings_over_modrinth I p s)),
    (get_lookup _ _ _ (applySettings_over_userAgent I p s)).
  cbn [QVariant_toString QVariant_toInt].
  cbn [fields f_pasteType]. rewrite D. cbn [QVariant_toInt].
  rewrite <- E in K. destruct (select_found d _ K) as (F & C & _).
  apply Z.eqb_neq in F. rewrite F, C. reflexivity.
Qed.

Lemma loadSettings_plain s p :
  msaClientID (loadSettings s p) = QVariant_toString (Settings.get "MSAClientIDOverride" s) /\
  flameKey (loadSettings s p) = QVariant_toString (Settings.get "FlameKeyOverride" s) /\
  modrinthToken (loadSettings s p) = QVariant_toString (Settings.get "ModrinthToken" s) /\
  userAgentLineEdit (loadSettings s p) =
    QVariant_toString (Settings.get "UserAgentOverride" s).
Proof.
  unfold loadSettings.
  destruct (if (_ =? -1)%Z then _ else _) as [i p']. cbn. tauto.
Qed.

Lemma apply_after_load_plain s p k :
  In k plainKeys ->
  applySettings (loadSettings s p) s !! k =
  Some (QStr (QVariant_toString (Settings.get k s))).
Proof.
  destruct (loadSettings_plain s p) as (H1 & H2 & H3 & H4).
  intros [<-|[<-|[<-|[<-|[]]]]].
  - now rewrite applySettings_msa, H1.
  - now rewrite applySettings_flame, H2.
  - now rewrite applySettings_modrinth, H3.
  - now rewrite applySettings_userAgent, H4.
Qed.

Lemma in_settingKeys_dec k : {In k settingKeys} + {~ In k settingKeys}.
Proof. apply in_dec, string_dec. Qed.

Lemma applySettings_known p s s' k :
  In k settingKeys -> applySettings p s !! k = applySettings p s' !! k.
Proof.
  intros H. unfold settingKeys in H. cbn [In] in H.
  destruct H as [<-|[<-|[<-|[<-|[<-|[<-|[<-|[<-|[<-|[]]]]]]]]]].
  - now rewrite !applySettings_pasteType.
  - now rewrite !applySettings_baseURL.
  - now rewrite !applySettings_msa.
  - now rewrite !applySettings_meta.
  - now rewrite !applySettings_resource.
  - now rewrite !applySettings_libraries.
  - now rewrite !applySettings_flame.
  - now rewrite !applySettings_modrinth.
  - now rewrite !applySettings_userAgent.
Qed.

Lemma applySettings_twice p s : applySettings p (applySettings p s) = applySettings p s.
Proof.
  apply map_eq. intros k. destruct (in_settingKeys_dec k) as [K|K].
  - now apply applySettings_known.
  - now rewrite !applySettings_other.
Qed.

(** *** Reloading *)

Lemma setPasteTypeIndex_same i p :
  QComboBox.setCurrentIndex i (pasteTypeComboBox p) = pasteTypeComboBox p ->
  setPasteTypeIndex i p = p.
Proof.
  intros E. unfold setPasteTypeIndex. rewrite E, Z.eqb_refl. now destruct p.
Qed.

Lemma set_baseURLEntry_same p : set_baseURLEntry (baseURLEntry p) p = p.
Proof. now destruct p. Qed.

(** A form that shows what is stored is left as it is. *)
Lemma loadSettings_shown s p :
  pasteTypeComboBox p =
    QComboBox.setCurrentIndex (pasteTypeIndex s (pasteTypeComboBox p)) (pasteTypeComboBox p) ->
  fields p = fields (loadSettings s p) ->
  loadSettings s p = p.
Proof.
  intros B F. rewrite loadSettings_fields in F. cbv zeta in F.
  unfold pasteTypeIndex in B. cbv zeta in B. unfold loadSettings.
  destruct p as [box base msa meta res lib fl mo ua note en txt bpt].
  unfold fields in F.
  cbn [pasteTypeComboBox baseURLEntry msaClientID metaURL resourceURL librariesURL
       flameKey modrinthToken userAgentLineEdit set_baseURLEntry] in *.
  inversion F as [[F1 F2 F3 F4 F5 F6 F7 F8 F9]]. clear F F1.
  rewrite <- F3, <- F4, <- F5, <- F6, <- F7, <- F8, <- F9.
  destruct (_ =? -1)%Z.
  - rewrite setPasteTypeIndex_same by (symmetry; exact B). reflexivity.
  - rewrite <- F2. rewrite setPasteTypeIndex_same by (symmetry; exact B). reflexivity.
Qed.

Lemma pasteTypeIndex_items s box box' :
  QComboBox.itemData_ box' = QComboBox.itemData_ box ->
  pasteTypeIndex s box' = pasteTypeIndex s box.
Proof. intros E. unfold pasteTypeIndex, QComboBox.findData. now rewrite E. Qed.


(** *** The refresh control *)

Lemma step_accounted e w : accounted w -> accounted (step e w).
Proof.
  unfold accounted. intros A. destruct e as [| |succeed s'|reasons]; cbn [step].
  - unfold on_applyPropertiesBtn_clicked.
    destruct (applyPropertiesBtn_enabled (page w)); [cbn; lia | exact A].
  - exact A.
  - destruct (Property.unresolved (property w)) as [|n] eqn:U; [now rewrite U|].
    cbn. rewrite length_app. cbn. lia.
  - destruct (Property.unresolved (property w)) as [|n] eqn:U; [now rewrite U|].
    cbn. rewrite length_app. cbn. lia.
Qed.

Lemma run_invariant (P : World -> Prop) es w :
  (forall e w, P w -> P (step e w)) -> P w -> P (run es w).
Proof.
  intros H. revert w. induction es as [|e es IH]; intros w Pw; [exact Pw|].
  apply IH, H, Pw.
Qed.

(** *** The constructor *)

Lemma find_found d l i : QComboBox.find d l i <> (-1)%Z -> In d l.
Proof.
  intros H. destruct (in_dec Z.eq_dec d l) as [K|K]; [exact K|].
  now rewrite find_absent in H.
Qed.

Lemma pasteTypeIndex_selects s box :
  In (PasteUpload.value PasteUpload.Mclogs) (QComboBox.itemData_ box) ->
  exists d,
    In d (QComboBox.itemData_ box) /\
    QComboBox.currentData (QComboBox.setCurrentIndex (pasteTypeIndex s box) box) = QInt d /\
    has_selection (QComboBox.setCurrentIndex (pasteTypeIndex s box) box).
Proof.
  intros M. unfold pasteTypeIndex. cbv zeta.
  destruct (Z.eqb_spec
              (QComboBox.findData (QVariant_toInt (Settings.get "PastebinType" s)) box)
              (-1)) as [E|N].
  - exists (PasteUpload.value PasteUpload.Mclogs).
    destruct (select_found _ _ M) as (_ & D & S). now split.
  - pose proof (find_found _ _ _ N) as K.
    exists (QVariant_toInt (Settings.get "PastebinType" s)).
    destruct (select_found _ _ K) as (_ & D & S). now split.
Qed.

Lemma itemData_int i box :
  QComboBox.itemData i box = QInvalid \/
  exists d, QComboBox.itemData i box = QInt d /\ In d (QComboBox.itemData_ box).
Proof.
  unfold QComboBox.itemData. destruct (i <? 0)%Z; [now left|].
  destruct (nth_error (QComboBox.itemData_ box) (Z.to_nat i)) as [d|] eqn:E; [|now left].
  right. exists d. split; [reflexivity | now apply nth_error_In in E].
Qed.

Lemma at_in_table (table : list PasteTypes.PasteTypeInfo) i :
  (0 <= i < Z.of_nat (length table))%Z ->
  exists info, PasteTypes.at_ table i = Some info.
Proof.
  intros [H1 H2]. unfold PasteTypes.at_. destruct (Z.ltb_spec i 0); [lia|].
  destruct (nth_error table (Z.to_nat i)) as [info|] eqn:E; [eauto|].
  apply nth_error_None in E. lia.
Qed.

Lemma itemTexts_in_table table entries :
  (forall d, In d entries -> (0 <= d < Z.of_nat (length table))%Z) ->
  exists texts, itemTexts table entries = Some texts /\ length texts = length entries.
Proof.
  induction entries as [|d r IH]; intros H; [now exists []|].
  destruct (at_in_table table d) as [info E]; [apply H; now left|].
  destruct IH as (texts & T & L); [intros d' K; apply H; now right|].
  exists (PasteTypes.name info :: texts). cbn [itemTexts]. rewrite E, T.
  split; [reflexivity | cbn; now rewrite L].
Qed.

(** *** The note *)

Lemma setPasteTypeIndex_note i p :
  (0 <= i < QComboBox.count (pasteTypeComboBox p))%Z ->
  pasteTypeComboBox (setPasteTypeIndex i p) =
    QComboBox.mk (QComboBox.itemData_ (pasteTypeComboBox p)) i /\
  baseURLEntry (setPasteTypeIndex i p) = baseURLEntry p /\
  baseURLPasteType (setPasteTypeIndex i p) = baseURLPasteType p /\
  baseURLNote_visible (setPasteTypeIndex i p) =
    if (i =? QComboBox.currentIndex (pasteTypeComboBox p))%Z then baseURLNote_visible p
    else if (baseURLPasteType p =? i)%Z then false
    else if String.eqb (baseURLEntry p) "" then baseURLNote_visible p
    else true.
Proof.
  intros [I1 I2].
  assert (R : ((0 <=? i) && (i <? QComboBox.count (pasteTypeComboBox p)))%Z = true)
    by (apply andb_true_intro; split; [apply Z.leb_le | apply Z.ltb_lt]; lia).
  unfold setPasteTypeIndex, QComboBox.setCurrentIndex. rewrite R.
  cbn [QComboBox.currentIndex].
  destruct (i =? QComboBox.currentIndex (pasteTypeComboBox p))%Z; [now repeat split|].
  unfold updateBaseURLNote. cbn [baseURLPasteType baseURLEntry].
  destruct (baseURLPasteType p =? i)%Z; [now repeat split|].
  destruct (String.eqb (baseURLEntry p) ""); now repeat split.
Qed.

End MorePageFacts.

Import QUrl QUrlForm MoreUrlFacts MorePageFacts.

(** X2. What [verifyUrl] returns is never a URL with the scheme [http]: with
    every QUrl that keeps the laws, it is the empty text or is read back with
    another scheme. *)
Theorem verifyUrl_never_http (I : QUrlApi.ops) (L : QUrl_laws I) (x : string) :
  verifyUrl_over I x = "" \/
  QUrlApi.scheme (QUrlApi.fromString I (verifyUrl_over I x)) <> "http".
Proof.
  destruct (String.eqb_spec x "") as [->|N]; [left; now apply verifyUrl_over_empty|].
  destruct (verifyUrl_over_reads L x) as [E|(_ & R & _)]; [now left | right].
  destruct (normalized_spec L x (text_isEmpty I L x N)) as (_ & _ & S & _).
  rewrite R, S. apply scheme_not_http.
Qed.

Lemma verifyUrl_never_http_witness :
  QUrl_laws QUrl_model /\
  QUrl.scheme (QUrl.fromString (verifyUrl "http://example.com")) <> "http".
Proof.
  split; [exact QUrl_model_laws|].
  destruct (verifyUrl_never_http QUrl_model QUrl_model_laws "http://example.com")
    as [H|H]; [discriminate H | exact H].
Defined.

(** X6. A text the validator of the URL fields accepts leaves [verifyUrl]
    with the scheme [https] (line 79: http is allowed, and replaced later):
    when QUrl reads the scheme of a text that starts with [http://] or
    [https://], the URL [verifyUrl] builds from an accepted text has the
    scheme [https], and what it returns is the empty text or is read back
    with that scheme. *)
Theorem validated_url_becomes_https (I : QUrlApi.ops) (L : QUrl_laws I) (x : string) :
  (forall r : string,
     QUrlApi.scheme (QUrlApi.fromString I ("http://" ++ r)) = "http" /\
     QUrlApi.scheme (QUrlApi.fromString I ("https://" ++ r)) = "https") ->
  validUrlRegExp x = true ->
  QUrlApi.scheme (normalized I x) = "https" /\
  (verifyUrl_over I x = "" \/
   QUrlApi.scheme (QUrlApi.fromString I (verifyUrl_over I x)) = "https").
Proof.
  intros T H.
  assert (N : x <> "") by (intros ->; discriminate H).
  destruct (normalized_spec L x (text_isEmpty I L x N)) as (_ & _ & S & _).
  assert (S' : QUrlApi.scheme (normalized I x) = "https").
  { rewrite S. destruct (validUrlRegExp_text x H) as (r & [E|E]); rewrite E.
    - now rewrite (proj2 (T r)).
    - now rewrite (proj1 (T r)). }
  split; [exact S'|].
  destruct (verifyUrl_over_reads L x) as [E|(_ & R & _)]; [now left | right].
  now rewrite R.
Qed.

Lemma validated_url_becomes_https_witness :
  QUrl_laws QUrl_model /\
  validUrlRegExp "http://meta.example.org/v1" = true /\
  QUrl.scheme (QUrl.fromString (verifyUrl "http://meta.example.org/v1")) = "https".
Proof.
  split; [exact QUrl_model_laws|]. split; [reflexivity|].
  destruct (validated_url_becomes_https QUrl_model QUrl_model_laws
              "http://meta.example.org/v1" fromString_http eq_refl) as (_ & [H|H]);
    [discriminate H | exact H].
Defined.

(** X8. [applySettings] leaves every setting but its nine keys as it is. *)
Theorem applySettings_frame (p : APIPage) (s : Settings.t) (k : string) :
  ~ In k settingKeys -> applySettings p s !! k = s !! k.
Proof. apply applySettings_other. Qed.

Lemma applySettings_frame_witness :
  applySettings (a_page "http://example.com") {[ "Language" := QStr "en" ]} !! "Language" =
  ({[ "Language" := QStr "en" ]} : Settings.t) !! "Language".
Proof.
  apply applySettings_frame. cbn. intuition discriminate.
Defined.

(** X9. Applying the same form twice stores what applying it once stores, and
    what is stored under the nine keys does not depend on what was stored
    before. *)
Theorem applySettings_idempotent (p : APIPage) (s s' : Settings.t) :
  applySettings p (applySettings p s) = applySettings p s /\
  Forall (fun k => applySettings p s !! k = applySettings p s' !! k) settingKeys.
Proof.
  split; [apply applySettings_twice|].
  apply List.Forall_forall. intros k. apply applySettings_known.
Qed.

(** X10. When the stored paste type is among the items of the combo box,
    [loadSettings] selects it and shows the stored base URL of the paste
    service. *)
Theorem loadSettings_known_paste_type (s : Settings.t) (p : APIPage) :
  In (QVariant_toInt (Settings.get "PastebinType" s))
     (QComboBox.itemData_ (pasteTypeComboBox p)) ->
  f_pasteType (fields (loadSettings s p)) =
    QInt (QVariant_toInt (Settings.get "PastebinType" s)) /\
  f_baseURL (fields (loadSettings s p)) =
    QVariant_toString (Settings.get "PastebinCustomAPIBase" s) /\
  has_selection (pasteTypeComboBox (loadSettings s p)).
Proof.
  intros K. destruct (select_found _ _ K) as (F & D & S).
  pose proof (loadSettings_fields s p) as E. cbv zeta in E.
  apply Z.eqb_neq in F. rewrite F in E.
  split; [|split].
  - rewrite E. exact D.
  - now rewrite E.
  - unfold fields in E. 
    assert (B : pasteTypeComboBox (loadSettings s p) =
                QComboBox.setCurrentIndex
                  (QComboBox.findData (QVariant_toInt (Settings.get "PastebinType" s))
                     (pasteTypeComboBox p)) (pasteTypeComboBox p)).
    { unfold loadSettings. cbn [set_baseURLEntry pasteTypeComboBox]. rewrite F.
      cbn [pasteTypeComboBox].
      match goal with
      | |- context [setPasteTypeIndex ?i ?q] =>
          destruct (setPasteTypeIndex_box i q) as [-> _]
      end. reflexivity. }
    rewrite B. exact S.
Qed.

Lemma loadSettings_known_paste_type_witness :
  let s : Settings.t :=
    <["PastebinType" := QStr "2"]>
      (<["PastebinCustomAPIBase" := QStr "https://paste.example/"]> ∅) in
  f_pasteType (fields (loadSettings s (APIPage_new ∅))) = QInt 2 /\
  f_baseURL (fields (loadSettings s (APIPage_new ∅))) = "https://paste.example/".
Proof.
  cbv zeta.
  destruct (loadSettings_known_paste_type
              (<["PastebinType" := QStr "2"]>
                 (<["PastebinCustomAPIBase" := QStr "https://paste.example/"]> ∅))
              (APIPage_new ∅)) as (H1 & H2 & _).
  - vm_compute. tauto.
  - split; [exact H1 | exact H2].
Defined.

(** X11. Loading what a form with a selected paste type has just stored shows that
    form again, with the three URLs as [verifyUrl] returns them. *)
Theorem load_after_apply_shows_form (p q : APIPage) (s : Settings.t) :
  has_selection (pasteTypeComboBox p) ->
  QComboBox.itemData_ (pasteTypeComboBox q) = QComboBox.itemData_ (pasteTypeComboBox p) ->
  fields (loadSettings (applySettings p s) q) =
  mkFields (f_pasteType (fields p)) (baseURLEntry p) (msaClientID p)
           (verifyUrl (metaURL p)) (verifyUrl (resourceURL p))
           (verifyUrl (librariesURL p)) (flameKey p) (modrinthToken p)
           (userAgentLineEdit p).
Proof. apply load_after_apply. Qed.

Lemma load_after_apply_shows_form_witness :
  f_metaURL (fields (loadSettings (applySettings (a_page "http://example.com") ∅)
                       (APIPage_new ∅))) = "https://example.com/".
Proof.
  rewrite (load_after_apply_shows_form (a_page "http://example.com") (APIPage_new ∅) ∅).
  - reflexivity.
  - vm_compute. split; [discriminate | reflexivity].
  - reflexivity.
Defined.

(** X12. Loading and applying leaves the client ID, the API key, the token and the
    user agent as they are stored, when they are stored as text. *)
Theorem apply_after_load_keeps_plain (s : Settings.t) (p : APIPage) (k v : string) :
  In k plainKeys -> s !! k = Some (QStr v) ->
  applySettings (loadSettings s p) s !! k = s !! k.
Proof.
  intros K E. rewrite (apply_after_load_plain s p k K), (get_lookup _ _ _ E), E.
  reflexivity.
Qed.

Lemma apply_after_load_keeps_plain_witness :
  let s : Settings.t := {[ "ModrinthToken" := QStr "mrp_token" ]} in
  applySettings (loadSettings s (APIPage_new ∅)) s !! "ModrinthToken" = s !! "ModrinthToken".
Proof.
  cbv zeta. apply (apply_after_load_keeps_plain _ _ "ModrinthToken" "mrp_token").
  - cbn. tauto.
  - reflexivity.
Defined.

(** X13. After loading and applying, the stored paste type is one of the four
    entries of the combo box: the stored one when it was one of them. *)
Theorem apply_after_load_stores_known_type (s : Settings.t) (p : APIPage) :
  QComboBox.itemData_ (pasteTypeComboBox p) = comboBoxEntries ->
  exists d,
    applySettings (loadSettings s p) s !! "PastebinType" = Some (QInt d) /\
    In d comboBoxEntries /\
    (In (QVariant_toInt (Settings.get "PastebinType" s)) comboBoxEntries ->
     d = QVariant_toInt (Settings.get "PastebinType" s)).
Proof.
  intros I. rewrite applySettings_pasteType, loadSettings_box.
  destruct (pasteTypeIndex_selects s (pasteTypeComboBox p)) as (d & K & D & _).
  { rewrite I. now left. }
  exists d. rewrite D. cbn [QVariant_toInt]. rewrite I in K.
  split; [reflexivity|]. split; [exact K|].
  intros K'. rewrite <- I in K'. destruct (select_found _ _ K') as (F & D' & _).
  unfold pasteTypeIndex in D. cbv zeta in D. apply Z.eqb_neq in F.
  rewrite F, D' in D. now inversion D.
Qed.

Lemma apply_after_load_stores_known_type_witness :
  exists d,
    applySettings (loadSettings {[ "PastebinType" := QInt 7 ]} (APIPage_new ∅))
      {[ "PastebinType" := QInt 7 ]} !! "PastebinType" = Some (QInt d) /\
    In d comboBoxEntries.
Proof.
  destruct (apply_after_load_stores_known_type {[ "PastebinType" := QInt 7 ]} (APIPage_new ∅))
    as (d & H1 & H2 & _); [reflexivity|].
  exists d. split; [exact H1 | exact H2].
Defined.

(** X14. Loading the same settings a second time changes nothing on the page. *)
Theorem loadSettings_idempotent (s : Settings.t) (p : APIPage) :
  loadSettings s (loadSettings s p) = loadSettings s p.
Proof.
  apply loadSettings_shown.
  - rewrite (pasteTypeIndex_items s (pasteTypeComboBox p)) by apply loadSettings_items.
    now rewrite loadSettings_box.
  - rewrite !loadSettings_fields. cbv zeta.
    rewrite loadSettings_box. unfold QComboBox.findData.
    cbn [QComboBox.setCurrentIndex QComboBox.itemData_]. reflexivity.
Qed.

(** X15. [loadSettings] changes neither the items of the combo box, nor the button,
    nor [baseURLPasteType]. *)
Theorem loadSettings_frame (s : Settings.t) (p : APIPage) :
  QComboBox.itemData_ (pasteTypeComboBox (loadSettings s p)) =
    QComboBox.itemData_ (pasteTypeComboBox p) /\
  applyPropertiesBtn_enabled (loadSettings s p) = applyPropertiesBtn_enabled p /\
  applyPropertiesBtn_text (loadSettings s p) = applyPropertiesBtn_text p /\
  baseURLPasteType (loadSettings s p) = baseURLPasteType p.
Proof.
  destruct (loadSettings_rest s p) as [T B].
  split; [apply loadSettings_items|]. split; [apply loadSettings_button|]. now split.
Qed.

(** X16. After any events on the page the constructor builds, the button is
    disabled exactly while one request is unresolved: there is never more
    than one. *)
Theorem at_most_one_request (s : Settings.t) (es : list Event) :
  let w := run es (init s) in
  consistent w /\ (Property.unresolved (property w) <= 1)%nat.
Proof.
  cbv zeta. assert (C : consistent (run es (init s)))
    by apply run_consistent, init_consistent.
  split; [exact C|]. unfold consistent in C. rewrite C. destruct (control _); lia.
Qed.

(** X17. After any events on the page the constructor builds, every request
    started was answered by exactly one message box or is still unresolved. *)
Theorem every_request_answered_once (s : Settings.t) (es : list Event) :
  accounted (run es (init s)).
Proof.
  apply run_invariant; [apply step_accounted | reflexivity].
Qed.

(** X19. After [resetBaseURLNote] the note is hidden; selecting another paste type
    shows it exactly when a base URL is entered, and selecting the first one
    again hides it. *)
Theorem note_follows_paste_type (p : APIPage) (i : Z) :
  has_selection (pasteTypeComboBox p) ->
  (0 <= i < QComboBox.count (pasteTypeComboBox p))%Z ->
  i <> QComboBox.currentIndex (pasteTypeComboBox p) ->
  let p0 := resetBaseURLNote p in
  let p1 := setPasteTypeIndex i p0 in
  let p2 := setPasteTypeIndex (QComboBox.currentIndex (pasteTypeComboBox p)) p1 in
  baseURLNote_visible p0 = false /\
  baseURLNote_visible p1 = negb (String.eqb (baseURLEntry p) "") /\
  baseURLNote_visible p2 = false.
Proof.
  intros S I N. cbv zeta. split; [reflexivity|].
  destruct (setPasteTypeIndex_note i (resetBaseURLNote p) I) as (B1 & E1 & T1 & V1).
  cbn [resetBaseURLNote pasteTypeComboBox baseURLEntry baseURLPasteType
       baseURLNote_visible] in B1, E1, T1, V1.
  apply Z.eqb_neq in N. rewrite N in V1.
  rewrite Z.eqb_sym, N in V1.
  split; [rewrite V1; now destruct (String.eqb (baseURLEntry p) "")|].
  destruct (setPasteTypeIndex_note (QComboBox.currentIndex (pasteTypeComboBox p))
              (setPasteTypeIndex i (resetBaseURLNote p))) as (_ & _ & _ & V2).
  { rewrite B1. exact S. }
  rewrite V2, B1, T1. cbn [QComboBox.currentIndex].
  rewrite Z.eqb_sym, N. now rewrite Z.eqb_refl.
Qed.

Lemma note_follows_paste_type_witness :
  let p := set_baseURLEntry "https://paste.example/" (APIPage_new ∅) in
  baseURLNote_visible (setPasteTypeIndex 3 (resetBaseURLNote p)) = true.
Proof.
  cbv zeta.
  destruct (note_follows_paste_type
              (set_baseURLEntry "https://paste.example/" (APIPage_new ∅)) 3)
    as (_ & H & _).
  - vm_compute. split; [discriminate | reflexivity].
  - vm_compute. split; [discriminate | reflexivity].
  - discriminate.
  - exact H.
Defined.

(** X20. The page the constructor builds has the four entries in its combo box
    and one of them selected, the note hidden, [baseURLPasteType] at the
    current index and the button enabled. *)
Theorem constructed_page (s : Settings.t) :
  let p := APIPage_new s in
  QComboBox.itemData_ (pasteTypeComboBox p) = comboBoxEntries /\
  has_selection (pasteTypeComboBox p) /\
  (exists d, f_pasteType (fields p) = QInt d /\ In d comboBoxEntries) /\
  baseURLNote_visible p = false /\
  baseURLPasteType p = QComboBox.currentIndex (pasteTypeComboBox p) /\
  applyPropertiesBtn_enabled p = true.
Proof.
  cbv zeta. unfold APIPage_new.
  set (p0 := mkPage _ "" "" "" "" "" "" "" "" false true CaptionOfForm 0).
  assert (I : QComboBox.itemData_ (pasteTypeComboBox p0) = comboBoxEntries) by reflexivity.
  unfold resetBaseURLNote, fields.
  cbn [pasteTypeComboBox baseURLNote_visible baseURLPasteType applyPropertiesBtn_enabled
       f_pasteType].
  destruct (pasteTypeIndex_selects s (pasteTypeComboBox p0)) as (d & K & D & S).
  { rewrite I. now left. }
  rewrite loadSettings_box, loadSettings_button.
  split; [exact I|]. split; [exact S|]. split; [|now repeat split].
  exists d. rewrite I in K. now split.
Qed.

(** X21. With a table of four paste types, [updateBaseURLPlaceholder] finds an
    entry for every index, also for one that selects nothing, and the
    constructor finds a text for each of the four items: [at] never leaves the
    table. *)
Theorem placeholder_lookup_in_table
    (table : list PasteTypes.PasteTypeInfo) (index : Z) (p : APIPage) :
  length table = 4%nat ->
  QComboBox.itemData_ (pasteTypeComboBox p) = comboBoxEntries ->
  (exists text, updateBaseURLPlaceholder table index p = Some text) /\
  (exists texts, itemTexts table comboBoxEntries = Some texts /\ length texts = 4%nat).
Proof.
  intros L I. split.
  - unfold updateBaseURLPlaceholder.
    destruct (at_in_table table
                (QVariant_toInt (QComboBox.itemData index (pasteTypeComboBox p))))
      as [info E].
    + rewrite L. destruct (itemData_int index (pasteTypeComboBox p)) as [->|(d & -> & K)].
      * cbn. lia.
      * rewrite I in K. cbn in K. cbn [QVariant_toInt]. lia.
    + rewrite E. eauto.
  - apply itemTexts_in_table. rewrite L. intros d K. cbn in K. lia.
Qed.

Lemma placeholder_lookup_in_table_witness :
  let table :=
    [ PasteTypes.mk "0x0.st" "https://0x0.st"; PasteTypes.mk "hastebin" "https://hst.sh";
      PasteTypes.mk "paste.gg" "https://paste.gg"; PasteTypes.mk "mclo.gs" "https://api.mclo.gs" ] in
  exists text, updateBaseURLPlaceholder table (-1) (APIPage_new ∅) = Some text.
Proof.
  cbv zeta. eapply proj1. apply placeholder_lookup_in_table; reflexivity.
Defined.

(** X22. Apply, load, apply: with every QUrl that keeps the laws, applying a
    form with a selected paste type, loading the result and applying again
    gives the same settings as the first apply. *)
Theorem apply_load_apply
    (I : QUrlApi.ops) (L : QUrl_laws I) (p q : APIPage) (s : Settings.t) :
  has_selection (pasteTypeComboBox p) ->
  QComboBox.itemData_ (pasteTypeComboBox q) = QComboBox.itemData_ (pasteTypeComboBox p) ->
  applySettings_over I (loadSettings (applySettings_over I p s) q)
    (applySettings_over I p s) =
  applySettings_over I p s.
Proof.
  intros S E. pose proof (load_after_apply_over I p q s S E) as F.
  set (p' := loadSettings (applySettings_over I p s) q) in *.
  unfold fields in F. inversion F as [[F1 F2 F3 F4 F5 F6 F7 F8 F9]]. clear F.
  apply map_eq. intros k. destruct (in_settingKeys_dec k) as [K|K].
  - unfold settingKeys in K. cbn [In] in K.
    destruct K as [<-|[<-|[<-|[<-|[<-|[<-|[<-|[<-|[<-|[]]]]]]]]]].
    + now rewrite !applySettings_over_pasteType, F1.
    + now rewrite !applySettings_over_baseURL, F2.
    + now rewrite !applySettings_over_msa, F3.
    + now rewrite !applySettings_over_meta, F4, (verifyUrl_over_twice L).
    + now rewrite !applySettings_over_resource, F5, (verifyUrl_over_twice L).
    + now rewrite !applySettings_over_libraries, F6, (verifyUrl_over_twice L).
    + now rewrite !applySettings_over_flame, F7.
    + now rewrite !applySettings_over_modrinth, F8.
    + now rewrite !applySettings_over_userAgent, F9.
  - now rewrite !applySettings_over_other.
Qed.

Lemma apply_load_apply_witness :
  let s := applySettings_over QUrl_model (a_page "http://example.com") ∅ in
  QUrl_laws QUrl_model /\
  applySettings_over QUrl_model (loadSettings s (APIPage_new ∅)) s = s.
Proof.
  cbv zeta. split; [exact QUrl_model_laws|].
  apply (apply_load_apply QUrl_model QUrl_model_laws).
  - vm_compute. split; [discriminate | reflexivity].
  - reflexivity.
Defined.
